(* ===== verification/_CoqProject ===== *)
-Q . S2P
Prelude.v
Text.v
Config.v
Dom.v
Timer.v
Game.v
Session.v
Spec.v
Display.v
Progress.v
