(* ===== verification/Prelude.v ===== *)
(** * Balloon Blast: a verification development of [src/script.js]

    ** The program

    [src/script.js] is a browser minigame of three levels.  Its state is
    the global variables [score], [level] and [timer] (lines 12-14), the
    constant table [levels] (lines 16-23), and the page's DOM.  Three
    sources of events drive it.  A click on [#target-area] runs
    [popBalloon]; a click on the modal's button runs [nextLevel] (the
    listeners of lines 158-159); the repeating interval created by
    [startTimer] runs its countdown closure once per second.  The script
    ends by calling [initAudio] and [startGame] (lines 162-163).
    [popBalloon] scores through [updateScore] and, when the last balloon
    is gone, calls [endLevel].  [endLevel] cancels the countdown and shows
    one of three summaries.  [nextLevel] advances, retries or resets and
    calls [startGame], which runs [generateBalloons] and [startTimer].

    ** Layout: one file per component

    - [Prelude] (this file): the monad the functions are written in, the
      notation scope [js_scope], the hint databases [js] and [js_rw] and
      the tactic [js_run].  [st S A] is state passing with exceptions: a
      run returns [Ret a] or [Throw e] together with the state reached,
      because a browser keeps the side effects a handler made before an
      uncaught [TypeError].
    - [Text]: template literals on integers ([js_num], the Standard
      Library's decimal printing) and [String.prototype.includes]
      ([includes], by [String.index]), with its reference meaning
      [occurs] (the needle is a factor of the string).
    - [Config]: the record [LevelConfig], the table [levels], and
      [level_config], the lookup [levels[level - 1]]; [None] stands for
      [undefined].
    - [Dom]: the page.  It holds the target area's children (records
      [Balloon] with node identity, position and [style.transform]), the
      score and timer texts, the modal ([hidden] class, title, message,
      button, optional [#modal-instructor]) and the optional
      [<audio id="shoot-sound">].  It also holds a node counter for
      [createElement] and [Math.random] as an explicit source [Rng].
      Each DOM operation the script uses is one function.
    - [Timer]: the class [IntervalService] states what the game needs of
      [setInterval] and [clearInterval]: a table from interval ids to the
      state of the countdown closure ([timeLeft]).  The class
      [IntervalLaws] gives its laws under a well-formedness predicate.
      [Intervals] is the browser's table, with increasing ids, and its
      instance proves the laws.  [Reusing] is a second table that hands
      out the smallest id above every live one, so it reuses the ids of
      cancelled intervals; its instance proves the same laws with no
      well-formedness condition.  The game is generic in the table.
    - [Game]: the record [World] (the globals, the interval table, the
      page) and one definition per function of the script, composed as
      the source composes them.  These are [updateScore],
      [playShootSound], [popBalloon], the closure [countdown],
      [startTimer], [generateBalloons] (its loop is the structural
      [balloon_loop]), [endLevel], [nextLevel], [initAudio], [startGame]
      and [main].  The section [ClosedForms] then gives each function's
      result as one update of the world, with the equation to the
      statement-by-statement definition ([endLevel_eq],
      [popBalloon_eq], [countdown_eq], [startTimer_eq],
      [generateBalloons_eq], [startGame_eq], [nextLevel_eq],
      [main_eq]).  [balloon_at] describes the loop balloon by balloon,
      the reference the loop is proved equal to.  The properties of
      single functions follow, with witnesses on [demo_page].
    - [Session]: the event loop.  [dispatch] is the listener each [Event]
      runs: [ClickEmpty], [ClickBalloon i], [Continue], [Fire id].
      [enabled] is the browser's delivery rule, [step] the step relation,
      and [reachable] the closure of [step] from the world the script's
      last lines produce.  The Boolean [overlay] says whether the visible
      modal covers the play area, which is CSS and not part of [src/].
      [Inv] is the invariant of reachable worlds; it is proved by rule
      induction ([inv_init], [inv_step], [inv_reachable]), one lemma per
      event kind.  [step_cases] gives the closed form of each kind of
      step, and the later files' invariants are proved from it.  Then
      come the properties of reachable worlds, with their witnesses on
      runs from [demo_page].
    - [Spec]: the specification's state machine (its section 4), its
      invariant [a_inv], and the refinement.  [AState] is the abstract session: a [Phase]
      (AwaitingInput or one of three summaries), the level, the score,
      the targets left and the time left.  [astep] is a hit, a countdown
      tick or advance(), over a level table given as a section variable
      and instantiated with the code's ([code_table]).  [alpha] reads the
      abstract state off a [World]: the phase from the modal's [hidden]
      class and title, the time left from the interval [timer] names.
    - [Display]: the texts the page shows.  [Shown] says the score text,
      the timer text and the summary's message, button and instructor
      texts agree with the globals;
      it is proved for reachable worlds by rule induction next to [Inv]
      ([shown_init], [shown_step], [shown_reachable]).
    - [Progress]: liveness.  [playing_ok] (a level being played has a
      balloon left) is a third invariant of reachable worlds.  [clear_level]
      and [play] are the player's strategy as executable event lists;
      [rounds] is the number of rounds [play] needs, at most 5.
      [retry_cycle] and [grind] are the retry strategy on level 3,
      followed through the abstraction of [Spec].

    ** What is proved

    - Refinement: when the modal covers the play area, each event
      delivered to a reachable world is one [astep] between the
      abstractions, or changes nothing abstract
      ([Spec.session_refines_spec]).  Every reachable world abstracts to
      a state the specification's machine reaches from level 1 with
      score 0 ([Spec.reachable_in_spec]).  Without the overlay this fails
      in every reachable world that shows a summary over a balloon
      ([Spec.overlay_breaks_refinement]), and the gap is exactly one rule: for any page, the code refines the
      machine opened by a hit behind the "TIME'S UP" summary
      ([Spec.session_refines_open_spec]).
      The machine's invariant [a_inv] (level in 1..3, score a
      non-negative multiple of 10, completed summaries with no balloon
      and no clock, a running clock while a timed level is played) is
      proved by induction on the machine and carried to every reachable
      world by the refinement ([Spec.spec_invariant_holds]).  Conversely, every transition
      the machine allows from the abstraction of a reachable world is
      taken by some event the page can deliver there
      ([Spec.spec_steps_realised]), so the code and the machine are
      bisimilar through [alpha].
    - Timer discipline: a live interval is always the one [timer] names,
      so at most one countdown runs.  No countdown runs while a summary
      is shown ([live_interval_is_timer]).  [startTimer] cancels the
      previous interval ([startTimer_cancels_previous]).  Popping the last
      balloon cancels the countdown in the same handler, so a "TIME'S UP"
      can never follow a cleared level ([last_pop_cancels_countdown]).
      The countdown ends the level after exactly [timeLeft] (at most 15)
      firings ([countdown_expires]).  An untimed level never has a live
      countdown ([untimed_no_countdown]).  A tick and a pop that end nothing
      commute ([hit_tick_commute]), so the order of clicks and ticks
      matters only at the end of a level.  These results are proved for
      every table satisfying [IntervalLaws], so they do not depend on how
      the browser numbers its intervals; [Timer.Reusing], which reuses
      cancelled ids, satisfies the laws as [Timer.Intervals] does.
    - Errors: on a page with every element the script uses, no handler
      throws in a reachable world ([handlers_never_throw]), and [level]
      stays in 1..3 so [levels[level - 1]] is always defined
      ([level_always_defined]).  Without [#shoot-sound], every pop throws
      before scoring ([pop_without_sound_throws]).  Without
      [#modal-instructor], [endLevel] throws after showing the modal with
      the new title and the old message ([endLevel_without_instructor]).
    - Shapes: the interval table stays well formed and the target area
      holds only balloons of the current level, distinct, positioned in
      range and styled for the level ([Session.world_well_formed]).
    - Round trip: the title [endLevel] writes is recognised by
      [nextLevel]'s [includes("GAME OVER")] test exactly for the last
      level's summary ([Game.game_over_title_recognised]).
    - Equivalences with reference definitions: the balloon loop builds
      exactly [map balloon_at (seq 0 numBalloons)]
      ([Game.generateBalloons_indexed]).  The library lemma
      [Text.includes_spec] checks [includes] against its meaning (the
      needle occurs as a factor).
    - Functional behaviour: [generateBalloons_spec], [popBalloon_hit],
      [continue_transitions].
    - Findings: the final score is always at least 500, so the prize is
      always "BIG PRIZE" ([game_over_prize_is_big]).  "Try Again" below
      level 3 would advance ([try_again_advances]).  The pop guard does
      not test attachment ([pop_detached_still_scores]).  Without the
      overlay, every "TIME'S UP" shown over balloons can be turned into
      "GAME OVER" by popping them ([Progress.time_up_then_game_over]).
    - Liveness: every level being played can be cleared by popping its
      balloons ([Progress.level_can_be_cleared]), and from every
      reachable world the strategy [play] reaches "GAME OVER"
      ([Progress.game_over_reachable]).  Retrying level 3 raises the
      score without bound ([Progress.score_unbounded]).
    - Display: the score text shows the score
      ([Display.score_display]); the timer text shows "--" on untimed
      levels and 0 under "TIME'S UP" ([Display.timer_display]); with the
      overlay, a summary's message, button and instructor texts match
      the level and score ([Display.summary_texts]).  Without it every
      pop behind an up-to-date "TIME'S UP" over two balloons or more
      leaves its message stale ([Display.stale_message_without_overlay]).
      Numbers shown after their label read back ([Text.parse_prefixed],
      a lemma on the decimal printing).

    ** Bounds and fuel

    The only fuel is the round count of the strategy [Progress.play]:
    two rounds per level left (its balloons, then the button), so five
    from the start of level 1 ([rounds_le_5]), and the liveness theorem
    is stated with that fuel.  [balloon_loop] recurses on
    [Z.to_nat numBalloons], the trip count of the source's [for] loop on
    an integer bound.  [fire_n] and [run] recurse on their argument.
    The event loop is a relation, so it needs no bound.  Integers are
    [Z].  [timeLeft] stays in 0..15 and [level] in 1..3.  The score has
    no fixed bound, because "Try Again" keeps the points of the failed
    attempt, but it grows by at most 10 per event
    ([Session.score_per_event]).  So it stays below 2^53, where
    JavaScript's doubles compute it exactly, for the first 9 * 10^14
    events.

    ** What is not modelled

    CSS and drawing are not modelled: style values are kept, not drawn,
    and whether the modal covers the area is the parameter [overlay].
    Neither is audio playback: [play()] and [load()] are counted, and
    the promise [play()] returns does not affect control flow.  The
    markup is not under [src/]; the hypothesis [page_ok] states the
    elements it must provide, and the score text it starts with is a
    parameter of [Display.score_shown].  Math.random's floating-point
    rounding is not modelled either: draws are rationals in [0, 1),
    positions are computed exactly, and [style.left] and [style.top]
    are kept as those numbers rather than as the strings [`${x}%`].
    Printing a double as JavaScript does (the shortest decimal that
    reads back to it) would need a model of binary64 arithmetic, which
    the rest of the development does not use.  The browser's timers are
    not code of the repository: [IntervalService] states what the game
    relies on, and the 1000 ms period is not modelled, so a firing may
    come before or after any click.  The theorems therefore cover every
    interleaving of clicks and ticks.

    ** What is left

    Every line of [src/script.js] that is not blank or a comment is
    translated by some definition.  What a later development could add
    is a model of binary64 arithmetic and of its printing, which would
    give the balloons' [style] strings ([`${x}%`] on a double) and the
    exact rounding of [Math.random() * 80 + 10]. *)

From Stdlib Require Import ZArith List String Lia.
Import ListNotations.

(** ** JavaScript exceptions *)

(** The only exception the script can raise is a [TypeError] from reading
    or writing a property of [null] or [undefined]. *)
Inductive exn : Type :=
| TypeError (msg : string).

(** Outcome of running a piece of code: a value, or an exception thrown. *)
Inductive outcome (A : Type) : Type :=
| Ret (a : A)
| Throw (e : exn).
Arguments Ret {A} a.
Arguments Throw {A} e.

(** ** The state monad with exceptions *)

(** [st S A]: code that runs on a state [S] and returns an [A] or throws;
    in both cases the state reached is returned, since JavaScript does not
    roll back the assignments made before a [throw]. *)
Definition st (S A : Type) : Type := S -> outcome A * S.

Section Monad.
Context {S : Type}.

Definition ret {A} (a : A) : st S A := fun s => (Ret a, s).

Definition bind {A B} (m : st S A) (k : A -> st S B) : st S B :=
  fun s =>
    match m s with
    | (Ret a, s') => k a s'
    | (Throw e, s') => (Throw e, s')
    end.

Definition throw {A} (e : exn) : st S A := fun s => (Throw e, s).

Definition get : st S S := fun s => (Ret s, s).

Definition put (s : S) : st S unit := fun _ => (Ret tt, s).

Definition modify (f : S -> S) : st S unit := fun s => (Ret tt, f s).

Definition gets {A} (f : S -> A) : st S A := fun s => (Ret (f s), s).

(** [if (c) { m }]: a statement run only when the condition holds. *)
Definition when (c : bool) (m : st S unit) : st S unit :=
  if c then m else ret tt.

(** The final state of a run, whatever its outcome. *)
Definition exec {A} (m : st S A) (s : S) : S := snd (m s).

(** A run that returns normally. *)
Definition returns {A} (m : st S A) (s : S) : Prop :=
  exists a s', m s = (Ret a, s').
End Monad.

Declare Scope js_scope.
Delimit Scope js_scope with js.
Notation "x <- m ;; k" := (bind m (fun x => k))
  (at level 61, m at next level, right associativity) : js_scope.
Notation "m ;; k" := (bind m (fun _ : unit => k))
  (at level 61, right associativity) : js_scope.
Open Scope js_scope.

(** ** Laws of the monad, stated on a given state *)

Create HintDb js discriminated.
Create Rewrite HintDb js_rw.

Section MonadLaws.
Context {S : Type}.

Lemma bind_ret_l {A B} (a : A) (k : A -> st S B) s :
  bind (ret a) k s = k a s.
Proof. reflexivity. Qed.

Lemma bind_ret_r {A} (m : st S A) s : bind m ret s = m s.
Proof. unfold bind, ret. destruct (m s) as [[a|e] s']; reflexivity. Qed.

Lemma bind_assoc {A B C} (m : st S A) (k : A -> st S B) (h : B -> st S C) s :
  bind (bind m k) h s = bind m (fun a => bind (k a) h) s.
Proof. unfold bind. destruct (m s) as [[a|e] s']; reflexivity. Qed.

Lemma bind_throw {A B} e (k : A -> st S B) s :
  bind (throw e) k s = (Throw e, s).
Proof. reflexivity. Qed.

(** Running [m ;; k] when [m] returns is running [k] from [m]'s state. *)
Lemma bind_of_ret {A B} (m : st S A) (k : A -> st S B) s a s' :
  m s = (Ret a, s') -> bind m k s = k a s'.
Proof. unfold bind. intros ->. reflexivity. Qed.

Lemma bind_of_throw {A B} (m : st S A) (k : A -> st S B) s e s' :
  m s = (Throw e, s') -> bind m k s = (Throw e, s').
Proof. unfold bind. intros ->. reflexivity. Qed.

Lemma exec_bind_ret {A B} (m : st S A) (k : A -> st S B) s a s' :
  m s = (Ret a, s') -> exec (bind m k) s = exec (k a) s'.
Proof. intros H. unfold exec. now rewrite (bind_of_ret m k s a s' H). Qed.

Lemma returns_bind {A B} (m : st S A) (k : A -> st S B) s a s' :
  m s = (Ret a, s') -> returns (k a) s' -> returns (bind m k) s.
Proof. intros H [b [s'' Hk]]. exists b, s''. now rewrite (bind_of_ret m k s a s' H). Qed.
End MonadLaws.

#[export] Hint Rewrite @bind_ret_l @bind_throw : js_rw.

(** [js_run] unfolds the monad's operations and reduces the matches they
    leave, which turns a straight-line run into its final pair. *)
Ltac js_run :=
  cbv beta iota zeta delta [bind ret throw get put modify gets when exec fst snd].

(** ** Shared lemmas on integers and lists *)

Lemma Z_to_nat_pos_S (n : Z) :
  (0 < n)%Z -> Z.to_nat n = S (Z.to_nat (n - 1)).
Proof. intros H. rewrite <- Z2Nat.inj_succ by lia. f_equal. lia. Qed.

Lemma length_filter_le {A} (f : A -> bool) (l : list A) :
  List.length (filter f l) <= List.length l.
Proof.
  induction l as [|x l IH]; simpl; [lia|].
  destruct (f x); simpl; lia.
Qed.

#[export] Hint Resolve length_filter_le : js.
