(* ===== verification/Text.v ===== *)
(** * Text: the string operations of [script.js]

    Template literals [`...${n}...`] on the integer numbers the script
    displays, and [String.prototype.includes], which [nextLevel] uses to
    recognise the "GAME OVER" summary.  The decimal rendering is the
    Standard Library's [NilZero.string_of_int], which writes an integer as
    JavaScript's [Number.prototype.toString] does for a safe integer
    (optional [-], digits, no leading zero). *)

From Stdlib Require Import ZArith String Bool Decimal DecimalString DecimalZ DecimalPos Lia.
From S2P Require Import Prelude.

Local Open Scope string_scope.

(** [`${n}`] for an integer number [n]. *)
Definition js_num (n : Z) : string := NilZero.string_of_int (Z.to_int n).

(** [s.includes(needle)]: the search of [needle] from position 0, as the
    ECMAScript algorithm [StringIndexOf(s, needle, 0) <> -1]. *)
Definition includes (s needle : string) : bool :=
  match index 0 needle s with
  | Some _ => true
  | None => false
  end.

(** Reading back a displayed integer: the inverse of [js_num], used to
    state that what the page shows determines the number. *)
Definition parse_num (s : string) : option Z :=
  option_map Z.of_int (NilZero.int_of_string s).

(** [s] with the prefix [p] removed, when [s] starts with [p]. *)
Fixpoint strip_prefix (p s : string) : option string :=
  match p, s with
  | EmptyString, _ => Some s
  | String a p', String b s' =>
      if Ascii.eqb a b then strip_prefix p' s' else None
  | String _ _, EmptyString => None
  end.

Lemma to_int_not_nil (n : Z) :
  Z.to_int n <> Pos Nil /\ Z.to_int n <> Neg Nil.
Proof.
  destruct n as [|p|p]; cbn; split; try discriminate;
    intros H; injection H; apply Unsigned.to_uint_nonnil.
Qed.

(** Decimal round trip of a displayed integer. *)
Lemma parse_js_num (n : Z) : parse_num (js_num n) = Some n.
Proof.
  unfold parse_num, js_num. destruct (to_int_not_nil n) as [H1 H2].
  rewrite (NilZero.isi _ H1 H2). cbn. now rewrite DecimalZ.of_to.
Qed.

Lemma js_num_inj (a b : Z) : js_num a = js_num b -> a = b.
Proof.
  intros H. apply (f_equal parse_num) in H.
  rewrite !parse_js_num in H. congruence.
Qed.

Lemma strip_prefix_app (p s : string) : strip_prefix p (p ++ s) = Some s.
Proof.
  induction p as [|a p IH]; cbn; [reflexivity|].
  now rewrite Ascii.eqb_refl.
Qed.

Lemma length_append (s t : string) : String.length (s ++ t) = String.length s + String.length t.
Proof. induction s as [|a s IH]; cbn; [reflexivity|now rewrite IH]. Qed.

(** Two texts that end alike are equal once the common end is dropped. *)
Lemma append_cancel_r (s1 s2 t : string) : s1 ++ t = s2 ++ t -> s1 = s2.
Proof.
  revert s2. induction s1 as [|a s1 IH]; intros [|b s2] E; cbn in E; [reflexivity| | |].
  - apply (f_equal String.length) in E. cbn in E. rewrite length_append in E. lia.
  - apply (f_equal String.length) in E. cbn in E. rewrite length_append in E. lia.
  - injection E as -> E. f_equal. exact (IH s2 E).
Qed.

#[export] Hint Rewrite parse_js_num strip_prefix_app : js_rw.

(** ** [includes] against its meaning *)

(** The reference meaning of [s.includes(needle)]: [needle] occurs in
    [s] as a factor. *)
Definition occurs (needle s : string) : Prop := exists pre post, s = pre ++ needle ++ post.

Lemma prefix_iff (p s : string) : prefix p s = true <-> exists post, s = p ++ post.
Proof.
  revert s. induction p as [|a p IH]; intros [|b s]; cbn.
  - split; [exists EmptyString; reflexivity|reflexivity].
  - split; [exists (String b s); reflexivity|reflexivity].
  - split; [discriminate|intros [post H]; discriminate].
  - destruct (Ascii.ascii_dec a b) as [<-|Hne].
    + rewrite IH. split; intros [post H]; exists post; [now rewrite H|now injection H].
    + split; [discriminate|intros [post H]; injection H as ->; contradiction].
Qed.

(** The search from position 0 tries the position 0, then the rest. *)
Lemma includes_String (a : Ascii.ascii) (s needle : string) :
  includes (String a s) needle = prefix needle (String a s) || includes s needle.
Proof.
  unfold includes. cbn [index]. destruct (prefix needle (String a s)); [reflexivity|].
  cbn [orb]. now destruct (index 0 needle s).
Qed.

Lemma occurs_String (a : Ascii.ascii) (s needle : string) :
  occurs needle (String a s) <-> (exists post, String a s = needle ++ post) \/ occurs needle s.
Proof.
  split.
  - intros ([|b pre] & post & H); [left; now exists post|right].
    injection H as _ H. now exists pre, post.
  - intros [[post H] | (pre & post & H)]; [now exists EmptyString, post|].
    exists (String a pre), post. cbn. now rewrite H.
Qed.

Lemma occurs_Empty (needle : string) : occurs needle EmptyString <-> needle = EmptyString.
Proof.
  split; [intros ([|? ?] & post & H); [destruct needle|]; easy|].
  intros ->. now exists EmptyString, EmptyString.
Qed.

(** [includes] computes [String.prototype.includes]: [s.includes(needle)]
    is true exactly when [needle] occurs in [s] as a factor, for every
    [s] and [needle], the empty needle and the empty string included. *)
Theorem includes_spec (s needle : string) : reflect (occurs needle s) (includes s needle).
Proof.
  apply iff_reflect. induction s as [|a s IH].
  - rewrite occurs_Empty. unfold includes. destruct needle; cbn; split; easy.
  - rewrite occurs_String, includes_String, orb_true_iff, <- IH, prefix_iff. reflexivity.
Qed.

(** A displayed number after its label, as [`POINTS: ${score}`]
    (line 29) or [`TIMER: ${timeLeft}`] (lines 54 and 57), reads back as
    the number: the texts the page shows determine the score and the time
    left. *)
Lemma parse_prefixed (p : string) (n : Z) :
  option_map parse_num (strip_prefix p (p ++ js_num n)) = Some (Some n).
Proof. autorewrite with js_rw. cbn. now autorewrite with js_rw. Qed.
