(* ===== verification/Config.v ===== *)
(** * Config: the level table of [script.js] (lines 16-23)

    [levels] is a constant array of three object literals; the script
    reads it as [levels[level - 1]], which is [undefined] when
    [level - 1] is not an index of the array.  That lookup is
    [level_config], returning [None] for [undefined]. *)

From Stdlib Require Import ZArith List String Lia.
From S2P Require Import Prelude.
Import ListNotations.

Local Open Scope Z_scope.
Local Open Scope string_scope.

(** [{ numBalloons, time, distance }]; [distance] is a string compared
    with ['far'] in [generateBalloons]. *)
Record LevelConfig : Type := mkLevel {
  numBalloons : Z;
  time : Z;
  distance : string
}.

(** [const levels = [...]] *)
Definition levels : list LevelConfig :=
  [ mkLevel 15 0 "near";
    mkLevel 15 0 "far";
    mkLevel 20 15 "far" ].

(** [levels[i]] for an integer [i]: the element at a non-negative index
    below the length, [undefined] otherwise. *)
Definition js_index {A} (xs : list A) (i : Z) : option A :=
  if Z.ltb i 0 then None else nth_error xs (Z.to_nat i).

(** [levels[level - 1]] *)
Definition level_config (level : Z) : option LevelConfig :=
  js_index levels (level - 1).

Lemma level_config_some (level : Z) :
  1 <= level <= 3 -> exists c, level_config level = Some c.
Proof.
  intros H. unfold level_config, js_index.
  assert (level = 1 \/ level = 2 \/ level = 3) as [-> | [-> | -> ] ] by lia;
    cbn; eexists; reflexivity.
Qed.

Lemma level_config_none (level : Z) :
  level < 1 \/ 3 < level -> level_config level = None.
Proof.
  intros H. unfold level_config, js_index.
  destruct (Z.ltb_spec (level - 1) 0); [reflexivity|].
  apply nth_error_None. cbn. lia.
Qed.

(** Which levels the table defines, and each one's entry. *)
Lemma level_config_cases (level : Z) (c : LevelConfig) :
  level_config level = Some c ->
  (level = 1 /\ c = mkLevel 15 0 "near") \/
  (level = 2 /\ c = mkLevel 15 0 "far") \/
  (level = 3 /\ c = mkLevel 20 15 "far").
Proof.
  intros H.
  destruct (Z.lt_decidable level 1) as [Hl|Hl];
    [rewrite level_config_none in H by lia; discriminate|].
  destruct (Z.lt_decidable 3 level) as [Hu|Hu];
    [rewrite level_config_none in H by lia; discriminate|].
  assert (level = 1 \/ level = 2 \/ level = 3) as [-> | [-> | -> ] ] by lia;
    cbn in H; injection H as <-; auto.
Qed.

Lemma level_config_bounds (level : Z) (c : LevelConfig) :
  level_config level = Some c ->
  1 <= level <= 3 /\ 0 < numBalloons c /\ 0 <= time c <= 15.
Proof.
  intros H. apply level_config_cases in H.
  destruct H as [[-> ->] | [[-> ->] | [-> ->] ] ]; cbn; lia.
Qed.

#[export] Hint Resolve level_config_some : js.
