(* ===== verification/Dom.v ===== *)
(** * Dom: the page that [script.js] reads and writes

    The script holds references to the page's elements (lines 2-9) and to
    [#modal-instructor] (looked up again in [endLevel], line 94).  The model
    keeps what the script reads or writes of them:
    - the children of [#target-area], all balloon [div]s created by
      [generateBalloons], in document order ([area]);
    - the [textContent] of [#score-display] and [#timer-display];
    - the modal: whether its class list holds ['hidden'], the texts of its
      title, message and button, and the text of [#modal-instructor], which
      is [None] when the page has no such element ([getElementById]
      returns [null]);
    - the [<audio id="shoot-sound">] element, [None] when absent;
    - the counter of created nodes (a created element is a new identity),
      the console output and the [Math.random] source.
    Each DOM operation the script performs is one function on [Dom]. *)

From Stdlib Require Import ZArith QArith List String Lia.
From S2P Require Import Prelude.
Import ListNotations.

(** A balloon element: [<div class="balloon">] with its identity, the
    numbers written into [style.left]/[style.top] (as [`${x}%`]), and its
    [style.transform] ([""] when unset). *)
Record Balloon : Type := mkBalloon {
  node : nat;
  left : Q;
  top : Q;
  transform : string
}.

(** [<audio>]: its [currentTime] and the number of [play()] and [load()]
    calls made on it. *)
Record Audio : Type := mkAudio {
  currentTime : Q;
  plays : nat;
  loads : nat
}.

(** [Math.random()]: the [k]-th call returns [draw k]. *)
Record Rng : Type := mkRng {
  draw : nat -> Q;
  drawn : nat
}.

Record Modal : Type := mkModal {
  hidden : bool;
  title : string;
  message : string;
  button : string;
  instructor : option string
}.

Record Dom : Type := mkDom {
  area : list Balloon;
  scoreText : string;
  timerText : string;
  modal : Modal;
  sound : option Audio;
  nextNode : nat;
  consoleLog : list string;
  rng : Rng
}.

(** The element a click on [#target-area] is dispatched to: the area
    itself (a click between balloons) or one balloon. *)
Inductive Target : Type :=
| AreaItself
| BalloonNode (b : Balloon).

(** ** Field updates *)

Definition set_area (a : list Balloon) (d : Dom) : Dom :=
  mkDom a (scoreText d) (timerText d) (modal d) (sound d) (nextNode d) (consoleLog d) (rng d).
Definition set_scoreText (s : string) (d : Dom) : Dom :=
  mkDom (area d) s (timerText d) (modal d) (sound d) (nextNode d) (consoleLog d) (rng d).
Definition set_timerText (s : string) (d : Dom) : Dom :=
  mkDom (area d) (scoreText d) s (modal d) (sound d) (nextNode d) (consoleLog d) (rng d).
Definition set_modal (m : Modal) (d : Dom) : Dom :=
  mkDom (area d) (scoreText d) (timerText d) m (sound d) (nextNode d) (consoleLog d) (rng d).
Definition set_sound (a : option Audio) (d : Dom) : Dom :=
  mkDom (area d) (scoreText d) (timerText d) (modal d) a (nextNode d) (consoleLog d) (rng d).
Definition set_nextNode (n : nat) (d : Dom) : Dom :=
  mkDom (area d) (scoreText d) (timerText d) (modal d) (sound d) n (consoleLog d) (rng d).
Definition set_consoleLog (l : list string) (d : Dom) : Dom :=
  mkDom (area d) (scoreText d) (timerText d) (modal d) (sound d) (nextNode d) l (rng d).
Definition set_rng (r : Rng) (d : Dom) : Dom :=
  mkDom (area d) (scoreText d) (timerText d) (modal d) (sound d) (nextNode d) (consoleLog d) r.

(** ** DOM operations used by the script *)

(** [targetArea.innerHTML = '']: every child is detached. *)
Definition clear_area (d : Dom) : Dom := set_area [] d.

(** [document.createElement('div')]: a node of a new identity. *)
Definition create_node (d : Dom) : nat * Dom :=
  (nextNode d, set_nextNode (S (nextNode d)) d).

(** [targetArea.appendChild(b)] for a newly created [b]. *)
Definition append_balloon (b : Balloon) (d : Dom) : Dom :=
  set_area (area d ++ [b]) d.

(** [el.remove()]: detaches [el] when it is attached, and does nothing to
    a detached element. *)
Definition remove_node (n : nat) (d : Dom) : Dom :=
  set_area (filter (fun b => negb (Nat.eqb (node b) n)) (area d)) d.

(** [document.querySelectorAll('.balloon').length]: the balloons are the
    only elements of the page with class ['balloon']. *)
Definition count_balloons (d : Dom) : nat := List.length (area d).

(** [el.classList.contains('balloon')] on a click's target. *)
Definition has_balloon_class (t : Target) : bool :=
  match t with
  | AreaItself => false
  | BalloonNode _ => true
  end.

(** [Math.random()]. *)
Definition math_random (d : Dom) : Q * Dom :=
  (draw (rng d) (drawn (rng d)),
   set_rng (mkRng (draw (rng d)) (S (drawn (rng d)))) d).

(** Whether [b] is attached to the target area. *)
Definition attached (n : nat) (d : Dom) : bool :=
  existsb (fun b => Nat.eqb (node b) n) (area d).

(** ** Lemmas *)

Lemma filter_node_absent (n : nat) (l : list Balloon) :
  ~ In n (map node l) -> filter (fun b => negb (Nat.eqb (node b) n)) l = l.
Proof.
  induction l as [|c l IH]; cbn; [reflexivity|]. intros Hn.
  destruct (Nat.eqb_spec (node c) n) as [E|E]; [tauto|].
  cbn. f_equal. apply IH. tauto.
Qed.

Lemma remove_node_attached_count (n : nat) (d : Dom) :
  NoDup (map node (area d)) -> attached n d = true ->
  count_balloons (remove_node n d) = pred (count_balloons d).
Proof.
  unfold count_balloons, remove_node, attached; cbn.
  induction (area d) as [|b l IH]; cbn; [discriminate|].
  intros Hnd Hin. inversion Hnd as [|? ? Hnotin Hnd']; subst.
  destruct (Nat.eqb_spec (node b) n) as [Heq|Hne]; cbn.
  - subst n. now rewrite filter_node_absent.
  - rewrite (IH Hnd' Hin). destruct l as [|c l]; cbn in Hin; [discriminate|].
    reflexivity.
Qed.

Lemma remove_node_detached (n : nat) (d : Dom) :
  attached n d = false -> remove_node n d = d.
Proof.
  unfold remove_node, attached. destruct d as [a st tt m so nn cl r]; cbn.
  intros H. unfold set_area; cbn. f_equal.
  induction a as [|b l IH]; cbn in *; [reflexivity|].
  apply Bool.orb_false_iff in H as [H1 H2]. rewrite H1. cbn. now rewrite IH.
Qed.

Lemma remove_node_incl (n : nat) (d : Dom) (b : Balloon) :
  In b (area (remove_node n d)) -> In b (area d) /\ node b <> n.
Proof.
  cbn. rewrite filter_In. intros [H1 H2]. split; [exact H1|].
  now apply Bool.negb_true_iff, Nat.eqb_neq in H2.
Qed.

Lemma remove_node_nodup (n : nat) (d : Dom) :
  NoDup (map node (area d)) -> NoDup (map node (area (remove_node n d))).
Proof.
  cbn. induction (area d) as [|b l IH]; cbn; [auto|].
  intros Hnd. inversion Hnd as [|? ? Hnotin Hnd']; subst.
  destruct (negb (Nat.eqb (node b) n)); cbn; [|auto].
  constructor; [|auto]. intros Hin. apply Hnotin.
  apply in_map_iff in Hin as [c [Hc Hin]]. apply filter_In in Hin.
  apply in_map_iff. exists c. tauto.
Qed.

#[export] Hint Resolve remove_node_nodup : js.
