(* ===== verification/Timer.v ===== *)
(** * Timer: [setInterval] and [clearInterval]

    [startTimer] (lines 49-66) creates a repeating interval whose callback
    is a closure over its own [let timeLeft]; [clearInterval] cancels an
    interval by its id, and [clearInterval(undefined)] (the first call,
    since [let timer;] starts undefined) does nothing.

    The class [IntervalService] is what the game needs of the browser's
    timers: a table from interval ids to the state of the live interval's
    closure ([timeLeft]), with [iv_set] creating an interval of a fresh id,
    [iv_clear] cancelling one, [iv_put] the closure's write to its
    variable; [IntervalLaws] are the laws the game's proofs use, under a
    well-formedness predicate [iv_wf] that every operation keeps.
    [Intervals] below is the browser's table (increasing ids, as browsers
    hand them out) and its instance discharges the laws; [Reusing] at the
    end is a table that reuses the ids of cancelled intervals, with the
    same laws. *)

From Stdlib Require Import ZArith List Lia.
From S2P Require Import Prelude.
Import ListNotations.

Class IntervalService (T : Type) : Type := {
  iv_empty : T;
  iv_set : Z -> T -> nat * T;
  iv_clear : option nat -> T -> T;
  iv_get : T -> nat -> option Z;
  iv_put : nat -> Z -> T -> T;
  iv_wf : T -> Prop
}.

Class IntervalLaws (T : Type) `{IntervalService T} : Prop := {
  iv_wf_empty : iv_wf iv_empty;
  iv_wf_set : forall v t, iv_wf t -> iv_wf (snd (iv_set v t));
  iv_wf_clear : forall o t, iv_wf t -> iv_wf (iv_clear o t);
  iv_wf_put : forall i v t, iv_wf t -> iv_wf (iv_put i v t);
  iv_get_empty : forall i, iv_get iv_empty i = None;
  iv_set_fresh : forall v t, iv_wf t -> iv_get t (fst (iv_set v t)) = None;
  iv_get_set : forall v t j, iv_wf t ->
    iv_get (snd (iv_set v t)) j =
      if Nat.eqb (fst (iv_set v t)) j then Some v else iv_get t j;
  iv_clear_undefined : forall t, iv_clear None t = t;
  iv_get_clear : forall i t j,
    iv_get (iv_clear (Some i) t) j = if Nat.eqb i j then None else iv_get t j;
  iv_get_put : forall i v t j, iv_get t i <> None ->
    iv_get (iv_put i v t) j = if Nat.eqb i j then Some v else iv_get t j
}.

(** ** The browser's interval table *)

Record Intervals : Type := mkIntervals {
  live : list (nat * Z);
  next_id : nat
}.

Definition find_interval (l : list (nat * Z)) (i : nat) : option Z :=
  option_map snd (find (fun p => Nat.eqb (fst p) i) l).

(** [setInterval(cb, 1000)] returns the next id of the window's counter. *)
Definition set_interval (v : Z) (t : Intervals) : nat * Intervals :=
  (next_id t, mkIntervals ((next_id t, v) :: live t) (S (next_id t))).

(** [clearInterval(id)]. *)
Definition clear_interval (o : option nat) (t : Intervals) : Intervals :=
  match o with
  | None => t
  | Some i => mkIntervals (filter (fun p => negb (Nat.eqb (fst p) i)) (live t)) (next_id t)
  end.

(** The closure of interval [i] writes [v] to its [timeLeft]. *)
Definition put_interval (i : nat) (v : Z) (t : Intervals) : Intervals :=
  mkIntervals (map (fun p => if Nat.eqb (fst p) i then (i, v) else p) (live t)) (next_id t).

(** Every live id was handed out before. *)
Definition intervals_wf (t : Intervals) : Prop :=
  forall p, In p (live t) -> fst p < next_id t.

#[export] Instance intervals_service : IntervalService Intervals := {
  iv_empty := mkIntervals [] 1;
  iv_set := set_interval;
  iv_clear := clear_interval;
  iv_get t i := find_interval (live t) i;
  iv_put := put_interval;
  iv_wf := intervals_wf
}.

Lemma find_interval_absent (l : list (nat * Z)) (i : nat) :
  (forall p, In p l -> fst p <> i) -> find_interval l i = None.
Proof.
  unfold find_interval.
  induction l as [|[k v] l IH]; cbn; [reflexivity|]. intros H.
  destruct (Nat.eqb_spec k i) as [E|E].
  - exfalso. exact (H (k, v) (or_introl eq_refl) E).
  - apply IH. intros p Hp. apply H. now right.
Qed.

Lemma find_interval_filter (l : list (nat * Z)) (i j : nat) :
  find_interval (filter (fun p => negb (Nat.eqb (fst p) i)) l) j =
  if Nat.eqb i j then None else find_interval l j.
Proof.
  unfold find_interval.
  induction l as [|[k v] l IH]; cbn.
  - now destruct (Nat.eqb i j).
  - destruct (Nat.eqb_spec k i) as [->|E]; cbn.
    + rewrite IH. destruct (Nat.eqb_spec i j); reflexivity.
    + destruct (Nat.eqb_spec k j) as [->|E'].
      * apply Nat.eqb_neq in E. rewrite Nat.eqb_sym, E. reflexivity.
      * exact IH.
Qed.

Lemma find_interval_map_other (l : list (nat * Z)) (i j : nat) (v : Z) :
  i <> j ->
  find_interval (map (fun p => if Nat.eqb (fst p) i then (i, v) else p) l) j =
  find_interval l j.
Proof.
  intros Hij. unfold find_interval.
  induction l as [|[k w] l IH]; cbn; [reflexivity|].
  destruct (Nat.eqb_spec k i) as [->|E]; cbn.
  - apply Nat.eqb_neq in Hij. now rewrite Hij.
  - now destruct (Nat.eqb k j).
Qed.

Lemma find_interval_map (l : list (nat * Z)) (i j : nat) (v : Z) :
  find_interval l i <> None ->
  find_interval (map (fun p => if Nat.eqb (fst p) i then (i, v) else p) l) j =
  if Nat.eqb i j then Some v else find_interval l j.
Proof.
  destruct (Nat.eqb_spec i j) as [<-|Hij]; [|intros _; now apply find_interval_map_other].
  unfold find_interval. induction l as [|[k w] l IH]; cbn; [tauto|].
  destruct (Nat.eqb_spec k i) as [->|E]; cbn; [now rewrite Nat.eqb_refl|].
  apply Nat.eqb_neq in E. rewrite E. exact IH.
Qed.

#[export] Instance intervals_laws : IntervalLaws Intervals.
Proof.
  split; cbn; unfold intervals_wf.
  - intros p [].
  - cbn. intros v t H p [<-|Hp]; cbn; [lia|]. specialize (H p Hp). lia.
  - intros [|] t H p; cbn; [|auto]. rewrite filter_In. intros [Hp _]. auto.
  - intros i v t H p. cbn. rewrite in_map_iff. intros [q [Hq Hin]].
    destruct (fst q =? i) eqn:E; subst; cbn;
      [apply Nat.eqb_eq in E; rewrite <- E|]; apply H; exact Hin.
  - reflexivity.
  - intros v t H. apply find_interval_absent. intros p Hp E.
    specialize (H p Hp). lia.
  - intros v t j H. unfold find_interval; cbn. now destruct (Nat.eqb (next_id t) j).
  - reflexivity.
  - intros i t j. apply find_interval_filter.
  - intros i v t j H. now apply find_interval_map.
Qed.

(** ** A table that reuses the ids of cancelled intervals

    The HTML standard lets a browser hand out any id not in use.
    [Reusing] hands out the smallest id above every live one, so once the
    countdown is cancelled its id is handed out again.  Its instance
    discharges the same laws with no well-formedness condition at all, so
    no theorem of the development depends on the ids [Intervals]
    happens to choose. *)

Record Reusing : Type := mkReusing { r_live : list (nat * Z) }.

Definition max_id (l : list (nat * Z)) : nat := fold_right (fun p m => Nat.max (fst p) m) 0 l.

Definition reuse_set (v : Z) (t : Reusing) : nat * Reusing :=
  let id := S (max_id (r_live t)) in (id, mkReusing ((id, v) :: r_live t)).

Definition reuse_clear (o : option nat) (t : Reusing) : Reusing :=
  match o with
  | None => t
  | Some i => mkReusing (filter (fun p => negb (Nat.eqb (fst p) i)) (r_live t))
  end.

Definition reuse_put (i : nat) (v : Z) (t : Reusing) : Reusing :=
  mkReusing (map (fun p => if Nat.eqb (fst p) i then (i, v) else p) (r_live t)).

#[export] Instance reusing_service : IntervalService Reusing | 10 := {
  iv_empty := mkReusing [];
  iv_set := reuse_set;
  iv_clear := reuse_clear;
  iv_get t i := find_interval (r_live t) i;
  iv_put := reuse_put;
  iv_wf _ := True
}.

Lemma max_id_ge (l : list (nat * Z)) (p : nat * Z) : In p l -> fst p <= max_id l.
Proof.
  induction l as [|q l IH]; cbn; [tauto|]. fold (max_id l).
  intros [<-|Hp]; [lia|]. specialize (IH Hp). lia.
Qed.

#[export] Instance reusing_laws : IntervalLaws Reusing | 10.
Proof.
  split; cbn; auto.
  - intros v t _. apply find_interval_absent. intros p Hp E.
    pose proof (max_id_ge _ p Hp). unfold max_id in *. lia.
  - intros v t j _. unfold find_interval; cbn. fold (max_id (r_live t)).
    destruct j as [|j]; [reflexivity|]. now destruct (Nat.eqb (max_id (r_live t)) j).
  - intros i t j. apply find_interval_filter.
  - intros i v t j H. now apply find_interval_map.
Qed.
