(* ===== verification/Game.v ===== *)
(** * Game: the functions of [script.js]

    The world is the script's global variables [score], [level] and
    [timer] (lines 12-14), the browser's interval table and the page.
    Each function of the script is one definition of the monad [M]
    (state-passing with exceptions, [Prelude.st]), written statement by
    statement in the source's order; the functions call each other as in
    the source.  The development is generic in the interval table: it uses
    only the [IntervalService] operations and, in its proofs, their
    [IntervalLaws]. *)

From Stdlib Require Import ZArith QArith Lqa List String Bool Lia.
From S2P Require Import Prelude Text Config Dom Timer.
Import ListNotations.

Local Open Scope string_scope.

Section Game.
Context {T : Type} `{IS : IntervalService T}.

(** [let score = 0; let level = 1; let timer;] and the environment. *)
Record World : Type := mkWorld {
  score : Z;
  level : Z;
  timer : option nat;
  timers : T;
  dom : Dom
}.

Definition set_score (z : Z) (w : World) : World :=
  mkWorld z (level w) (timer w) (timers w) (dom w).
Definition set_level (z : Z) (w : World) : World :=
  mkWorld (score w) z (timer w) (timers w) (dom w).
Definition set_timer (o : option nat) (w : World) : World :=
  mkWorld (score w) (level w) o (timers w) (dom w).
Definition set_timers (t : T) (w : World) : World :=
  mkWorld (score w) (level w) (timer w) t (dom w).
Definition set_dom (d : Dom) (w : World) : World :=
  mkWorld (score w) (level w) (timer w) (timers w) d.

Definition M (A : Type) : Type := st World A.

(** ** Access to the page *)

Definition dom_do (f : Dom -> Dom) : M unit :=
  modify (fun w => set_dom (f (dom w)) w).

Definition dom_get {A} (f : Dom -> A) : M A := gets (fun w => f (dom w)).

Definition dom_step {A} (f : Dom -> A * Dom) : M A :=
  fun w => (Ret (fst (f (dom w))), set_dom (snd (f (dom w))) w).

Definition modal_do (f : Modal -> Modal) : M unit :=
  dom_do (fun d => set_modal (f (modal d)) d).

Definition set_hidden (b : bool) (m : Modal) : Modal :=
  mkModal b (title m) (message m) (button m) (instructor m).

(** [modalTitle.textContent = s], and likewise for the message and button. *)
Definition set_title (s : string) : M unit :=
  modal_do (fun m => mkModal (hidden m) s (message m) (button m) (instructor m)).
Definition set_message (s : string) : M unit :=
  modal_do (fun m => mkModal (hidden m) (title m) s (button m) (instructor m)).
Definition set_button (s : string) : M unit :=
  modal_do (fun m => mkModal (hidden m) (title m) (message m) s (instructor m)).

(** [modalInstructor.textContent = s], where [modalInstructor] is
    [document.getElementById('modal-instructor')] (line 94): a
    [TypeError] when the page has no such element. *)
Definition set_instructor (s : string) : M unit :=
  i <- dom_get (fun d => instructor (modal d)) ;;
  match i with
  | None => throw (TypeError "Cannot set properties of null (setting 'textContent')")
  | Some _ => modal_do (fun m => mkModal (hidden m) (title m) (message m) (button m) (Some s))
  end.

(** [clearInterval(timer)] on the global [timer]. *)
Definition clear_timer : M unit :=
  modify (fun w => set_timers (iv_clear (timer w) (timers w)) w).

(** ** [updateScore] (lines 27-30) *)
Definition updateScore (points : Z) : M unit :=
  modify (fun w => set_score (score w + points) w) ;;
  s <- gets score ;;
  dom_do (set_scoreText ("POINTS: " ++ js_num s)).

(** ** [playShootSound] (lines 32-35): [shootSound] is [null] when the
    page has no [#shoot-sound] element. *)
Definition playShootSound : M unit :=
  a <- dom_get sound ;;
  match a with
  | None => throw (TypeError "Cannot set properties of null (setting 'currentTime')")
  | Some au =>
      dom_do (set_sound (Some (mkAudio 0 (plays au) (loads au)))) ;;
      dom_do (set_sound (Some (mkAudio 0 (S (plays au)) (loads au))))
  end.

(** The prize of line 115. *)
Definition prize (s : Z) : string :=
  if Z.leb 100 s then "BIG PRIZE"
  else if Z.leb 50 s then "MEDIUM PRIZE"
  else "SMALL PRIZE".

Definition title_times_up : string := "🐻 TIME'S UP!".
Definition title_great_job : string := "🐻 GREAT JOB!".
Definition title_game_over : string := "🐻 GAME OVER!".

(** ** [endLevel] (lines 90-120) *)
Definition endLevel (timeExpired : bool) : M unit :=
  clear_timer ;;
  modal_do (set_hidden false) ;;
  lvl <- gets level ;;
  sc <- gets score ;;
  if timeExpired then
    set_title title_times_up ;;
    set_instructor "You need to shoot faster! Click 'Try Again' to continue." ;;
    set_message ("You missed some balloons! Score: " ++ js_num sc ++ ".") ;;
    set_button "Try Again?"
  else if Z.ltb lvl 3 then
    set_title title_great_job ;;
    (if Z.eqb lvl 1 then
       set_instructor "Instructions: Shoot 15 balloons. They will be SMALLER this time!"
     else if Z.eqb lvl 2 then
       set_instructor "Instructions: Shoot 20 balloons in 15 seconds! Speed is key!"
     else ret tt) ;;
    set_message ("Level " ++ js_num lvl ++ " complete! Preparing for Level "
                 ++ js_num (lvl + 1) ++ "...") ;;
    set_button ("Start Level " ++ js_num (lvl + 1))
  else
    set_title title_game_over ;;
    set_instructor "You've earned your prize! Thanks for playing." ;;
    set_message ("Final Score: " ++ js_num sc ++ "! You win the " ++ prize sc ++ "!") ;;
    set_button "Play Again?".

(** [event.target.remove()]; under the guard of [popBalloon] the target
    is always a balloon. *)
Definition remove_target (t : Target) : Dom -> Dom :=
  match t with
  | BalloonNode b => remove_node (node b)
  | AreaItself => fun d => d
  end.

(** ** [popBalloon] (lines 37-47), the click listener of [#target-area] *)
Definition popBalloon (t : Target) : M unit :=
  when (has_balloon_class t)
    (playShootSound ;;
     updateScore 10 ;;
     dom_do (remove_target t) ;;
     n <- dom_get count_balloons ;;
     when (Nat.eqb n 0) (endLevel false)).

(** ** The countdown closure of [startTimer] (lines 55-62), run by the
    browser for the live interval [id]; [timeLeft] is the closure's
    variable, kept in the interval table. *)
Definition countdown (id : nat) : M unit :=
  o <- gets (fun w => iv_get (timers w) id) ;;
  match o with
  | None => ret tt
  | Some timeLeft =>
      let timeLeft' := (timeLeft - 1)%Z in
      modify (fun w => set_timers (iv_put id timeLeft' (timers w)) w) ;;
      dom_do (set_timerText ("TIMER: " ++ js_num timeLeft')) ;;
      when (Z.leb timeLeft' 0) (clear_timer ;; endLevel true)
  end.

(** [timer = setInterval(...)] *)
Definition start_interval (v : Z) : M unit :=
  modify (fun w => let (id, t) := iv_set v (timers w) in set_timer (Some id) (set_timers t w)).

(** ** [startTimer] (lines 49-66) *)
Definition startTimer : M unit :=
  clear_timer ;;
  lvl <- gets level ;;
  match level_config lvl with
  | None => throw (TypeError "Cannot read properties of undefined (reading 'time')")
  | Some c =>
      if Z.ltb 0 (time c) then
        dom_do (set_timerText ("TIMER: " ++ js_num (time c))) ;;
        start_interval (time c)
      else dom_do (set_timerText "TIMER: --")
  end.

(** [if (config.distance === 'far') balloon.style.transform = 'scale(0.6)']
    (lines 82-84); the transform is left unset ([""]) otherwise. *)
Definition balloon_transform (config : LevelConfig) : string :=
  if String.eqb (distance config) "far" then "scale(0.6)" else "".

(** One iteration of the loop of [generateBalloons] (lines 72-86):
    create the [div], draw [x] then [y], set the style, append. *)
Definition make_balloon (config : LevelConfig) : M unit :=
  n <- dom_step create_node ;;
  x <- dom_step math_random ;;
  y <- dom_step math_random ;;
  dom_do (append_balloon (mkBalloon n (x * 80 + 10) (y * 80 + 10) (balloon_transform config))).

Fixpoint balloon_loop (config : LevelConfig) (k : nat) : M unit :=
  match k with
  | O => ret tt
  | S k' => make_balloon config ;; balloon_loop config k'
  end.

(** ** [generateBalloons] (lines 68-88): [config] is [levels[level - 1]],
    [undefined] out of range; the loop runs [numBalloons] times. *)
Definition generateBalloons (config : option LevelConfig) : M unit :=
  dom_do clear_area ;;
  match config with
  | None => throw (TypeError "Cannot read properties of undefined (reading 'numBalloons')")
  | Some c => balloon_loop c (Z.to_nat (numBalloons c))
  end.

(** ** [startGame] (lines 146-150) *)
Definition startGame : M unit :=
  lvl <- gets level ;;
  generateBalloons (level_config lvl) ;;
  startTimer.

(** ** [nextLevel] (lines 122-135), the click listener of the button *)
Definition nextLevel : M unit :=
  modal_do (set_hidden true) ;;
  lvl <- gets level ;;
  t <- dom_get (fun d => title (modal d)) ;;
  (if Z.eqb lvl 3 && includes t "GAME OVER" then
     modify (set_score 0) ;;
     modify (set_level 1) ;;
     dom_do (set_scoreText "POINTS: 0")
   else if Z.ltb lvl 3 then modify (fun w => set_level (level w + 1) w)
   else ret tt) ;;
  startGame.

(** ** [initAudio] (lines 139-144) *)
Definition initAudio : M unit :=
  a <- dom_get sound ;;
  match a with
  | None => ret tt
  | Some au =>
      dom_do (set_sound (Some (mkAudio 0 (plays au) (S (loads au))))) ;;
      dom_do (fun d => set_consoleLog (consoleLog d ++ ["Audio element initialized."]) d)
  end.

(** The script's start: the globals' initial values on the loaded page
    [d], then lines 162-163 (the listeners of lines 158-159 are the
    events of [Session]). *)
Definition initial_world (d : Dom) : World := mkWorld 0 1 None iv_empty d.

Definition main : M unit := initAudio ;; startGame.

End Game.

Arguments World T : clear implicits.
Arguments M T A : clear implicits.

(** Reduces the projections of the updated records. *)
Ltac world_simpl :=
  cbn [set_score set_level set_timer set_timers set_dom score level timer timers dom
       set_area set_scoreText set_timerText set_modal set_sound set_nextNode
       set_consoleLog set_rng area scoreText timerText modal sound nextNode consoleLog rng
       set_hidden hidden title message button instructor draw drawn] in *.

(** * Closed forms

    For each function above, the world it returns, written as one update
    of the world instead of a sequence of statements, with the equation
    between the two.  The conditions of each equation are the ones under
    which the source runs without a [TypeError]: the page has the element
    the function writes to, and [levels[level - 1]] is defined.  The
    properties of single functions below, and the invariants of
    [Session], are proved from these forms. *)

Local Open Scope string_scope.

Section ClosedForms.
Context {T : Type} `{IS : IntervalService T}.

(** ** [endLevel] *)

Definition end_title (b : bool) (lvl : Z) : string :=
  if b then title_times_up else if Z.ltb lvl 3 then title_great_job else title_game_over.

Definition end_message (b : bool) (lvl sc : Z) : string :=
  if b then "You missed some balloons! Score: " ++ js_num sc ++ "."
  else if Z.ltb lvl 3 then
    "Level " ++ js_num lvl ++ " complete! Preparing for Level " ++ js_num (lvl + 1) ++ "..."
  else "Final Score: " ++ js_num sc ++ "! You win the " ++ prize sc ++ "!".

Definition end_button (b : bool) (lvl : Z) : string :=
  if b then "Try Again?" else if Z.ltb lvl 3 then "Start Level " ++ js_num (lvl + 1)
  else "Play Again?".

Definition end_instructor (b : bool) (lvl : Z) (old : option string) : option string :=
  if b then Some "You need to shoot faster! Click 'Try Again' to continue."
  else if Z.ltb lvl 3 then
    (if Z.eqb lvl 1 then Some "Instructions: Shoot 15 balloons. They will be SMALLER this time!"
     else if Z.eqb lvl 2 then Some "Instructions: Shoot 20 balloons in 15 seconds! Speed is key!"
     else old)
  else Some "You've earned your prize! Thanks for playing.".

Definition endLevel_world (b : bool) (w : World T) : World T :=
  set_dom
    (set_modal
       (mkModal false (end_title b (level w)) (end_message b (level w) (score w))
          (end_button b (level w)) (end_instructor b (level w) (instructor (modal (dom w)))))
       (dom w))
    (set_timers (iv_clear (timer w) (timers w)) w).

Lemma endLevel_eq (b : bool) (w : World T) :
  instructor (modal (dom w)) <> None -> endLevel b w = (Ret tt, endLevel_world b w).
Proof.
  destruct w as [sc lvl tm ts [ar st0 tt0 [hd ti me bu [ins|]] so nn cl r]];
    intros H; [|exfalso; now apply H].
  unfold endLevel, endLevel_world, end_title, end_message, end_button, end_instructor.
  destruct b; cbn; [reflexivity|].
  destruct (Z.ltb lvl 3); cbn; [|reflexivity].
  destruct (Z.eqb lvl 1); cbn; [reflexivity|]. destruct (Z.eqb lvl 2); reflexivity.
Qed.

(** ** [popBalloon] on a balloon *)

(** [playShootSound(); updateScore(10); event.target.remove();] *)
Definition hit_world (b : Balloon) (au : Audio) (w : World T) : World T :=
  set_dom
    (remove_node (node b)
       (set_scoreText ("POINTS: " ++ js_num (score w + 10))
          (set_sound (Some (mkAudio 0 (S (plays au)) (loads au))) (dom w))))
    (set_score (score w + 10) w).

Definition pop_world (b : Balloon) (au : Audio) (w : World T) : World T :=
  let w1 := hit_world b au w in
  if Nat.eqb (count_balloons (dom w1)) 0 then endLevel_world false w1 else w1.

Lemma popBalloon_eq (b : Balloon) (au : Audio) (w : World T) :
  sound (dom w) = Some au -> instructor (modal (dom w)) <> None ->
  popBalloon (BalloonNode b) w = (Ret tt, pop_world b au w).
Proof.
  intros Hs Hi. unfold popBalloon, pop_world. cbn [has_balloon_class when].
  unfold playShootSound, updateScore, dom_get, dom_do. js_run. rewrite Hs. js_run.
  destruct (Nat.eqb _ 0); [|reflexivity].
  apply endLevel_eq. exact Hi.
Qed.

(** ** The countdown closure *)

Definition tick_world (id : nat) (t : Z) (w : World T) : World T :=
  set_dom (set_timerText ("TIMER: " ++ js_num (t - 1)) (dom w))
    (set_timers (iv_put id (t - 1) (timers w)) w).

Definition countdown_world (id : nat) (t : Z) (w : World T) : World T :=
  let w1 := tick_world id t w in
  if Z.leb (t - 1) 0
  then endLevel_world true (set_timers (iv_clear (timer w1) (timers w1)) w1)
  else w1.

Lemma countdown_eq (id : nat) (t : Z) (w : World T) :
  iv_get (timers w) id = Some t -> instructor (modal (dom w)) <> None ->
  countdown id w = (Ret tt, countdown_world id t w).
Proof.
  intros Ht Hi. unfold countdown, countdown_world. js_run. rewrite Ht.
  unfold dom_do, clear_timer. js_run.
  destruct (Z.leb (t - 1) 0); [|reflexivity].
  apply endLevel_eq. exact Hi.
Qed.

(** ** [startTimer] *)

Definition timer_world (c : LevelConfig) (w : World T) : World T :=
  let w1 := set_timers (iv_clear (timer w) (timers w)) w in
  if Z.ltb 0 (time c) then
    let (id, ts) := iv_set (time c) (timers w1) in
    set_timer (Some id)
      (set_timers ts (set_dom (set_timerText ("TIMER: " ++ js_num (time c)) (dom w1)) w1))
  else set_dom (set_timerText "TIMER: --" (dom w1)) w1.

Lemma startTimer_eq (c : LevelConfig) (w : World T) :
  level_config (level w) = Some c -> startTimer w = (Ret tt, timer_world c w).
Proof.
  intros Hc. unfold startTimer, timer_world, clear_timer. js_run. world_simpl. rewrite Hc. js_run.
  destruct (Z.ltb 0 (time c)); [|reflexivity].
  unfold start_interval, dom_do. js_run. world_simpl. now destruct (iv_set _ _).
Qed.

(** ** [generateBalloons] *)

(** The balloons the loop appends: node ids from [n], the [r]-th and
    [(r+1)]-th random draws for the first balloon's [x] and [y]. *)
Fixpoint new_balloons (c : LevelConfig) (k n : nat) (dr : nat -> Q) (r : nat) : list Balloon :=
  match k with
  | O => []
  | S k' =>
      mkBalloon n (dr r * 80 + 10) (dr (S r) * 80 + 10) (balloon_transform c)
        :: new_balloons c k' (S n) dr (S (S r))
  end.

(** The reference description of the loop, balloon by balloon: the
    [i]-th balloon of a run started with node counter [n] and draw
    counter [r] is node [n + i], and its [x] and [y] are the draws
    [r + 2i] and [r + 2i + 1]. *)
Definition balloon_at (c : LevelConfig) (n : nat) (dr : nat -> Q) (r : nat) (i : nat) : Balloon :=
  mkBalloon (n + i) (dr (r + 2 * i)%nat * 80 + 10) (dr (r + 2 * i + 1)%nat * 80 + 10)
    (balloon_transform c).

Definition gen_dom (c : LevelConfig) (k : nat) (d : Dom) : Dom :=
  set_rng (mkRng (draw (rng d)) (drawn (rng d) + 2 * k))
    (set_nextNode (nextNode d + k)
       (set_area (area d ++ new_balloons c k (nextNode d) (draw (rng d)) (drawn (rng d))) d)).

Lemma balloon_loop_eq (c : LevelConfig) (k : nat) (w : World T) :
  balloon_loop c k w = (Ret tt, set_dom (gen_dom c k (dom w)) w).
Proof.
  revert w. induction k as [|k IH]; intros w.
  - destruct w as [sc lvl tm ts [ar st0 tt0 m so nn cl [dr r]]].
    unfold gen_dom; cbn. rewrite app_nil_r, Nat.add_0_r, Nat.add_0_r. reflexivity.
  - cbn [balloon_loop]. unfold make_balloon, dom_step, dom_do. js_run.
    rewrite IH. destruct w as [sc lvl tm ts [ar st0 tt0 m so nn cl [dr r]]].
    unfold gen_dom, append_balloon, create_node, math_random. world_simpl.
    rewrite <- app_assoc. cbn [app].
    replace (S (S r) + 2 * k)%nat with (r + 2 * S k)%nat by lia.
    replace (S nn + k)%nat with (nn + S k)%nat by lia. reflexivity.
Qed.

Lemma generateBalloons_eq (c : LevelConfig) (w : World T) :
  generateBalloons (Some c) w =
  (Ret tt, set_dom (gen_dom c (Z.to_nat (numBalloons c)) (clear_area (dom w))) w).
Proof.
  unfold generateBalloons, dom_do. js_run. rewrite balloon_loop_eq. reflexivity.
Qed.

(** ** [startGame] and [nextLevel] *)

Definition start_world (c : LevelConfig) (w : World T) : World T :=
  timer_world c (set_dom (gen_dom c (Z.to_nat (numBalloons c)) (clear_area (dom w))) w).

Lemma startGame_eq (c : LevelConfig) (w : World T) :
  level_config (level w) = Some c -> startGame w = (Ret tt, start_world c w).
Proof.
  intros Hc. unfold startGame. js_run. rewrite Hc, generateBalloons_eq.
  apply startTimer_eq. exact Hc.
Qed.

(** What [nextLevel] does before it calls [startGame]. *)
Definition continue_world (w : World T) : World T :=
  let w1 := set_dom (set_modal (set_hidden true (modal (dom w))) (dom w)) w in
  if Z.eqb (level w) 3 && includes (title (modal (dom w))) "GAME OVER"
  then set_dom (set_scoreText "POINTS: 0" (dom w1)) (set_level 1 (set_score 0 w1))
  else if Z.ltb (level w) 3 then set_level (level w + 1) w1
  else w1.

Lemma nextLevel_eq (w : World T) : nextLevel w = startGame (continue_world w).
Proof.
  unfold nextLevel, continue_world, modal_do, dom_do, dom_get. js_run. world_simpl.
  destruct (Z.eqb (level w) 3 && _); js_run; world_simpl; [reflexivity|].
  destruct (Z.ltb (level w) 3); reflexivity.
Qed.

(** What [initAudio] does. *)
Definition audio_world (w : World T) : World T :=
  match sound (dom w) with
  | None => w
  | Some au =>
      set_dom (set_consoleLog (consoleLog (dom w) ++ ["Audio element initialized."])
                 (set_sound (Some (mkAudio 0 (plays au) (S (loads au)))) (dom w))) w
  end.

Lemma main_eq (w : World T) : main w = startGame (audio_world w).
Proof.
  unfold main, initAudio, audio_world, dom_get, dom_do. js_run.
  destruct (sound (dom w)); reflexivity.
Qed.

(** ** The balloons [generateBalloons] creates *)

Lemma new_balloons_length (c : LevelConfig) (k n : nat) (dr : nat -> Q) (r : nat) :
  List.length (new_balloons c k n dr r) = k.
Proof. revert n r. induction k as [|k IH]; intros n r; cbn; [reflexivity|]. now rewrite IH. Qed.

Lemma new_balloons_nodes (c : LevelConfig) (k n : nat) (dr : nat -> Q) (r : nat) :
  map node (new_balloons c k n dr r) = seq n k.
Proof. revert n r. induction k as [|k IH]; intros n r; cbn; [reflexivity|]. now rewrite IH. Qed.

(** Each created balloon: a node id of the batch, its coordinates from
    two consecutive draws, the transform of the level. *)
Lemma position_draw_eq (dr : nat -> Q) (a b : nat) : a = b -> dr a * 80 + 10 = dr b * 80 + 10.
Proof. now intros ->. Qed.

(** The recursive closed form is the reference description. *)
Lemma new_balloons_indexed (c : LevelConfig) (k n : nat) (dr : nat -> Q) (r : nat) :
  new_balloons c k n dr r = map (balloon_at c n dr r) (seq 0 k).
Proof.
  revert n r. induction k as [|k IH]; intros n r; [reflexivity|].
  cbn [new_balloons seq map]. rewrite IH, <- seq_shift, map_map. f_equal;
    [|apply map_ext; intros i]; unfold balloon_at; f_equal; first [lia | apply position_draw_eq; lia].
Qed.

Lemma new_balloons_in (c : LevelConfig) (k n : nat) (dr : nat -> Q) (r : nat) (b : Balloon) :
  In b (new_balloons c k n dr r) ->
  (n <= node b)%nat /\ (node b < n + k)%nat /\
  (exists j, left b = dr j * 80 + 10 /\ top b = dr (S j) * 80 + 10) /\
  transform b = balloon_transform c.
Proof.
  revert n r. induction k as [|k IH]; intros n r; cbn; [tauto|].
  intros [<-|Hin]; cbn.
  - split; [lia|]. split; [lia|]. split; [eauto|reflexivity].
  - destruct (IH _ _ Hin) as [Hn1 [Hn2 Hrest]]. split; [lia|]. split; [lia|exact Hrest].
Qed.

(** [Math.random() * 80 + 10] for a draw in [0, 1) lies in [10, 90]. *)
Lemma position_bounds (x : Q) : 0 <= x < 1 -> 10 <= x * 80 + 10 <= 90.
Proof. intros [H0 H1]. split; lra. Qed.

Lemma new_balloons_bounds (c : LevelConfig) (k n : nat) (dr : nat -> Q) (r : nat) (b : Balloon) :
  (forall j, 0 <= dr j < 1) -> In b (new_balloons c k n dr r) ->
  10 <= left b <= 90 /\ 10 <= top b <= 90.
Proof.
  intros Hdr Hin. destruct (new_balloons_in c k n dr r b Hin) as [_ [_ [[j [Hl Ht]] _]]].
  rewrite Hl, Ht. split; apply position_bounds, Hdr.
Qed.


Lemma start_world_level_score (c : LevelConfig) (w : World T) :
  level (start_world c w) = level w /\ score (start_world c w) = score w.
Proof.
  unfold start_world, timer_world. destruct (Z.ltb 0 (time c)); [|split; reflexivity].
  destruct (iv_set _ _). split; reflexivity.
Qed.

(** ** Properties of single functions *)

(** C22: [generateBalloons(config)] replaces the area's children by
    exactly [config.numBalloons] new balloons of distinct, fresh
    identities, each at a position in [10, 90] x [10, 90] (for draws of
    [Math.random] in [0, 1)), scaled to 0.6 exactly when the level is
    ['far']; nothing else of the game changes. *)
Theorem generateBalloons_spec (c : LevelConfig) (w : World T) :
  (forall k, 0 <= draw (rng (dom w)) k < 1) ->
  exists w', generateBalloons (Some c) w = (Ret tt, w') /\
    List.length (area (dom w')) = Z.to_nat (numBalloons c) /\
    NoDup (map node (area (dom w'))) /\
    (forall b, In b (area (dom w')) ->
       (nextNode (dom w) <= node b)%nat /\ 10 <= left b <= 90 /\ 10 <= top b <= 90 /\
       transform b = (if String.eqb (distance c) "far" then "scale(0.6)" else "")%string) /\
    score w' = score w /\ level w' = level w /\ timers w' = timers w.
Proof.
  intros Hdr. rewrite generateBalloons_eq. eexists. split; [reflexivity|].
  unfold gen_dom, clear_area. world_simpl. cbn [app].
  rewrite new_balloons_length, new_balloons_nodes. split; [reflexivity|].
  split; [apply seq_NoDup|]. split; [|repeat split].
  intros b Hin. destruct (new_balloons_in _ _ _ _ _ b Hin) as (Hn & _ & _ & Htr).
  destruct (new_balloons_bounds _ _ _ _ _ b Hdr Hin) as [Hx Hy]. auto.
Qed.

(** C23: the loop of [generateBalloons] is its index-wise description:
    the area holds exactly the balloons [balloon_at ... i] for
    [i = 0 .. numBalloons - 1], in creation order; balloon [i] is the
    [i]-th node created, its [x] is the [2i]-th draw of [Math.random] and
    its [y] the next one; the node and draw counters advance by
    [numBalloons] and [2 * numBalloons]. *)
Theorem generateBalloons_indexed (c : LevelConfig) (w : World T) :
  exists w', generateBalloons (Some c) w = (Ret tt, w') /\
    area (dom w') = map (balloon_at c (nextNode (dom w)) (draw (rng (dom w))) (drawn (rng (dom w))))
                        (seq 0 (Z.to_nat (numBalloons c))) /\
    nextNode (dom w') = (nextNode (dom w) + Z.to_nat (numBalloons c))%nat /\
    drawn (rng (dom w')) = (drawn (rng (dom w)) + 2 * Z.to_nat (numBalloons c))%nat.
Proof.
  rewrite generateBalloons_eq. eexists. split; [reflexivity|].
  unfold gen_dom, clear_area. world_simpl. cbn [app].
  rewrite new_balloons_indexed. repeat split.
Qed.

(** C24: a click on a balloon of the area awards 10 points, shows the
    new score, restarts the sound, removes exactly that balloon, and
    ends the level ("GREAT JOB" below level 3, "GAME OVER" at level 3,
    the countdown cancelled) exactly when it was the last one. *)
Theorem popBalloon_hit (b : Balloon) (au : Audio) (w : World T) :
  sound (dom w) = Some au -> instructor (modal (dom w)) <> None ->
  NoDup (map node (area (dom w))) -> In b (area (dom w)) ->
  score (exec (popBalloon (BalloonNode b)) w) = (score w + 10)%Z /\
  scoreText (dom (exec (popBalloon (BalloonNode b)) w)) = ("POINTS: " ++ js_num (score w + 10))%string /\
  sound (dom (exec (popBalloon (BalloonNode b)) w)) = Some (mkAudio 0 (S (plays au)) (loads au)) /\
  area (dom (exec (popBalloon (BalloonNode b)) w)) =
    filter (fun b' => negb (Nat.eqb (node b') (node b))) (area (dom w)) /\
  List.length (area (dom (exec (popBalloon (BalloonNode b)) w))) = pred (List.length (area (dom w))) /\
  (area (dom (exec (popBalloon (BalloonNode b)) w)) = [] ->
     hidden (modal (dom (exec (popBalloon (BalloonNode b)) w))) = false /\
     title (modal (dom (exec (popBalloon (BalloonNode b)) w))) = end_title false (level w) /\
     timers (exec (popBalloon (BalloonNode b)) w) = iv_clear (timer w) (timers w)) /\
  (area (dom (exec (popBalloon (BalloonNode b)) w)) <> [] ->
     modal (dom (exec (popBalloon (BalloonNode b)) w)) = modal (dom w) /\
     timers (exec (popBalloon (BalloonNode b)) w) = timers w).
Proof.
  intros Hs Hi Hnd Hin. unfold exec. rewrite (popBalloon_eq b au w Hs Hi). cbn [snd].
  assert (Hatt : attached (node b) (dom w) = true).
  { apply existsb_exists. exists b. split; [exact Hin|apply Nat.eqb_refl]. }
  pose proof (remove_node_attached_count (node b) (dom w) Hnd Hatt) as Hcnt.
  unfold count_balloons, remove_node in Hcnt. cbn [area set_area] in Hcnt.
  unfold pop_world, hit_world, count_balloons, remove_node, endLevel_world. world_simpl.
  set (rest := filter _ (area (dom w))) in *.
  destruct (Nat.eqb (List.length rest) 0) eqn:E; world_simpl;
    (split; [reflexivity|]); (split; [reflexivity|]); (split; [reflexivity|]);
    (split; [reflexivity|]); (split; [exact Hcnt|]).
  - apply Nat.eqb_eq, length_zero_iff_nil in E.
    split; [intros _; repeat split|intros Hn; contradiction].
  - split; [|intros _; split; reflexivity].
    intros Hn. rewrite Hn in E. discriminate.
Qed.

(** C25: "Try Again" does not retry below level 3: after [endLevel(true)]
    ("TIME'S UP", button "Try Again?") at level 1 or 2, [nextLevel]
    only recognises "GAME OVER" and otherwise increments any level
    below 3, so the next level starts instead of the same one. *)
Theorem try_again_advances (w : World T) :
  instructor (modal (dom w)) <> None -> (level w = 1 \/ level w = 2)%Z ->
  title (modal (dom (exec (endLevel true) w))) = title_times_up /\
  level (exec (endLevel true ;; nextLevel) w) = (level w + 1)%Z.
Proof.
  intros Hi Hl. unfold exec. rewrite (bind_of_ret _ _ w tt (endLevel_world true w))
    by exact (endLevel_eq true w Hi).
  rewrite (endLevel_eq true w Hi). split; [reflexivity|].
  rewrite nextLevel_eq. unfold continue_world, endLevel_world. world_simpl.
  replace (Z.eqb (level w) 3) with false by lia. replace (Z.ltb (level w) 3) with true by lia.
  cbn [andb]. world_simpl.
  destruct (level_config_some (level w + 1)) as [c Hc]; [lia|].
  rewrite (startGame_eq c) by exact Hc. cbn [snd].
  rewrite (proj1 (start_world_level_score c _)). reflexivity.
Qed.

(** C28: on a page without [#modal-instructor], [endLevel] stops with a
    [TypeError] at the first write to [modalInstructor.textContent], for
    every summary of the table's levels.  The writes before it stay:
    the countdown is cancelled, the modal is shown and carries the new
    title, but the message and the button keep the previous summary's
    texts.  The handler leaves a half-written summary. *)
Theorem endLevel_without_instructor (b : bool) (w : World T) :
  instructor (modal (dom w)) = None -> (1 <= level w <= 3)%Z ->
  endLevel b w =
    (Throw (TypeError "Cannot set properties of null (setting 'textContent')"),
     set_dom (set_modal (mkModal false (end_title b (level w)) (message (modal (dom w)))
                           (button (modal (dom w))) None) (dom w))
       (set_timers (iv_clear (timer w) (timers w)) w)).
Proof.
  destruct w as [sc lvl tm ts [ar st0 tt0 [hd ti me bu ins] so nn cl r]]; cbn.
  intros -> Hl. unfold endLevel, end_title. destruct b; cbn; [reflexivity|].
  assert (lvl = 1 \/ lvl = 2 \/ lvl = 3)%Z as [-> | [-> | ->]] by lia; reflexivity.
Qed.

(** C26: a round trip between [endLevel] and [nextLevel]: the title
    [endLevel] writes is read back by [nextLevel]'s test
    [textContent.includes("GAME OVER")], which holds exactly for the
    summary of a completed last level (not for "TIME'S UP", not for
    "GREAT JOB"). *)
Theorem game_over_title_recognised (b : bool) (w : World T) :
  instructor (modal (dom w)) <> None ->
  includes (title (modal (dom (exec (endLevel b) w)))) "GAME OVER" =
    negb b && negb (Z.ltb (level w) 3).
Proof.
  intros Hi. unfold exec. rewrite (endLevel_eq b w Hi). cbn [snd].
  unfold endLevel_world. world_simpl. unfold end_title.
  destruct b; [reflexivity|]. now destruct (Z.ltb (level w) 3).
Qed.

(** C27: on a page without [#shoot-sound], [shootSound] is [null] and a
    click on a balloon throws at [shootSound.currentTime = 0], before
    [updateScore]: no point is awarded, the balloon stays, the level can
    never be completed by clicking. *)
Theorem pop_without_sound_throws (b : Balloon) (w : World T) :
  sound (dom w) = None ->
  popBalloon (BalloonNode b) w =
    (Throw (TypeError "Cannot set properties of null (setting 'currentTime')"), w).
Proof.
  intros Hs. unfold popBalloon, playShootSound, dom_get. cbn [has_balloon_class when].
  js_run. now rewrite Hs.
Qed.

(** C29: the guard of [popBalloon] tests the target's class, not whether
    it is still in the area: the handler run on a balloon already
    removed awards 10 more points and leaves the area as it is (only
    the browser, which dispatches clicks to attached elements, keeps a
    second pop of one balloon from happening). *)
Theorem pop_detached_still_scores (b : Balloon) (au : Audio) (w : World T) :
  sound (dom w) = Some au -> instructor (modal (dom w)) <> None ->
  attached (node b) (dom w) = false ->
  score (exec (popBalloon (BalloonNode b)) w) = (score w + 10)%Z /\
  area (dom (exec (popBalloon (BalloonNode b)) w)) = area (dom w).
Proof.
  intros Hs Hi Hd. unfold exec. rewrite (popBalloon_eq b au w Hs Hi). cbn [snd].
  assert (Hr : area (remove_node (node b) (dom w)) = area (dom w))
    by now rewrite remove_node_detached.
  unfold remove_node in Hr. cbn [area set_area] in Hr.
  unfold pop_world, hit_world, endLevel_world, count_balloons, remove_node. world_simpl.
  rewrite Hr. destruct (Nat.eqb _ 0); world_simpl; split; reflexivity.
Qed.
End ClosedForms.

(** ** A concrete page and the witnesses of the properties above *)

(** A page with every element the script uses; every [Math.random()] call
    returns 1/2. *)
Definition demo_page : Dom :=
  mkDom [] "POINTS: 0" "TIMER: --" (mkModal true "" "" "" (Some ""))
    (Some (mkAudio 0 0 0)) 0 [] (mkRng (fun _ => 1 # 2) 0).

(** The world once the script's last lines have run on [demo_page]. *)
Definition demo_world : World Intervals := exec main (initial_world demo_page).

Definition demo_first_balloon : Balloon :=
  match area (dom demo_world) with b :: _ => b | [] => mkBalloon 0 0 0 "" end.

Lemma generateBalloons_spec_witness :
  exists w', generateBalloons (Some (mkLevel 20 15 "far")) demo_world = (Ret tt, w') /\
    List.length (area (dom w')) = 20%nat.
Proof.
  destruct (generateBalloons_spec (mkLevel 20 15 "far") demo_world)
    as (w' & H1 & H2 & _); [intros k; split; vm_compute; congruence|].
  exists w'. split; [exact H1|exact H2].
Defined.

(** [demo_world] on a page whose modal has no [#modal-instructor]. *)
Definition no_instructor_world : World Intervals :=
  set_dom (set_modal (mkModal true "" "" "" None) (dom demo_world)) demo_world.

Lemma endLevel_without_instructor_witness :
  exists msg w', endLevel false no_instructor_world = (Throw (TypeError msg), w') /\
    hidden (modal (dom w')) = false /\ title (modal (dom w')) = title_great_job.
Proof.
  rewrite (endLevel_without_instructor false no_instructor_world);
    [| reflexivity | split; vm_compute; discriminate].
  eexists. eexists. split; [reflexivity|]. split; vm_compute; reflexivity.
Defined.

Lemma game_over_title_recognised_witness :
  includes (title (modal (dom (exec (endLevel false) demo_world)))) "GAME OVER" = false.
Proof.
  rewrite (game_over_title_recognised false demo_world); [reflexivity|].
  vm_compute. discriminate.
Defined.

Lemma popBalloon_hit_witness :
  score (exec (popBalloon (BalloonNode demo_first_balloon)) demo_world) = 10%Z.
Proof.
  destruct (popBalloon_hit demo_first_balloon (mkAudio 0 0 1) demo_world) as [H _].
  - vm_compute. reflexivity.
  - vm_compute. discriminate.
  - replace (map node (area (dom demo_world))) with (seq 0 15) by (vm_compute; reflexivity).
    apply seq_NoDup.
  - vm_compute. left. reflexivity.
  - rewrite H. vm_compute. reflexivity.
Defined.

Lemma try_again_advances_witness :
  level (exec (endLevel true ;; nextLevel) demo_world) = 2%Z.
Proof.
  destruct (try_again_advances demo_world) as [_ H];
    [vm_compute; discriminate | left; vm_compute; reflexivity |].
  rewrite H. vm_compute. reflexivity.
Defined.

Lemma pop_without_sound_throws_witness :
  let w := set_dom (set_sound None (dom demo_world)) demo_world in
  popBalloon (BalloonNode demo_first_balloon) w =
    (Throw (TypeError "Cannot set properties of null (setting 'currentTime')"), w).
Proof. apply pop_without_sound_throws. vm_compute. reflexivity. Defined.

Lemma pop_detached_still_scores_witness :
  let w := exec (popBalloon (BalloonNode demo_first_balloon)) demo_world in
  score (exec (popBalloon (BalloonNode demo_first_balloon)) w) = 20%Z.
Proof.
  destruct (pop_detached_still_scores demo_first_balloon (mkAudio 0 1 1)
              (exec (popBalloon (BalloonNode demo_first_balloon)) demo_world)) as [H _].
  - vm_compute. reflexivity.
  - vm_compute. discriminate.
  - vm_compute. reflexivity.
  - cbv zeta. rewrite H. vm_compute. reflexivity.
Defined.
