(* ===== verification/Session.v ===== *)
(** * Session: the event loop and the invariants of reachable worlds

    The browser runs one handler at a time, to completion, in the order
    the events arrive (lines 158-159 register the two click listeners;
    the interval created by [startTimer] is the third source of events).
    [step overlay w e w'] runs the handler of an event [e] enabled in [w]:
    - [ClickEmpty]: a click on [#target-area] between balloons;
    - [ClickBalloon i]: a click on the [i]-th balloon of the area;
    - [Continue]: a click on [#next-level-btn], visible only while the
      modal is shown;
    - [Fire id]: the live interval [id] fires.
    [overlay] says whether the visible modal covers the play area (CSS,
    which is not part of [src/]): when it does, clicks on the area are
    only delivered while the modal is hidden.  A handler that throws
    stops there; its earlier side effects stay, as in a browser.

    [reachable] is the closure of [step] from the world the script's last
    two lines produce on the loaded page.  [Inv] gathers what holds of
    every reachable world, for a page that has every element the script
    uses ([page_ok]).  The concrete runs at the end, on the browser's table
    [Intervals], are the witnesses of the theorems. *)

From Stdlib Require Import ZArith QArith Lqa List String Bool Lia.
From S2P Require Import Prelude Text Config Dom Timer Game.
Import ListNotations.

Local Open Scope Z_scope.
Local Open Scope string_scope.

Inductive Event : Type :=
| ClickEmpty
| ClickBalloon (i : nat)
| Continue
| Fire (id : nat).

Section Session.
Context {T : Type} `{IS : IntervalService T} `{IL : !IntervalLaws T}.

(** The listener an event runs; a click is dispatched to the element
    under the pointer. *)
Definition dispatch (e : Event) : M T unit :=
  match e with
  | ClickEmpty => popBalloon AreaItself
  | ClickBalloon i =>
      b <- dom_get (fun d => nth_error (area d) i) ;;
      match b with
      | Some b => popBalloon (BalloonNode b)
      | None => ret tt
      end
  | Continue => nextLevel
  | Fire id => countdown id
  end.

Definition area_clickable (overlay : bool) (w : World T) : bool :=
  negb overlay || hidden (modal (dom w)).

Definition enabled (overlay : bool) (w : World T) (e : Event) : bool :=
  match e with
  | ClickEmpty => area_clickable overlay w
  | ClickBalloon i => Nat.ltb i (List.length (area (dom w))) && area_clickable overlay w
  | Continue => negb (hidden (modal (dom w)))
  | Fire id => match iv_get (timers w) id with Some _ => true | None => false end
  end.

Inductive step (overlay : bool) : World T -> Event -> World T -> Prop :=
| step_run w e : enabled overlay w e = true -> step overlay w e (exec (dispatch e) w).

Inductive reachable (overlay : bool) (d : Dom) : World T -> Prop :=
| reach_start : reachable overlay d (exec main (initial_world d))
| reach_step w e w' : reachable overlay d w -> step overlay w e w' -> reachable overlay d w'.

(** A sequence of events, each required to be enabled when it arrives. *)
Fixpoint run (overlay : bool) (es : list Event) (w : World T) : option (World T) :=
  match es with
  | [] => Some w
  | e :: es' => if enabled overlay w e then run overlay es' (exec (dispatch e) w) else None
  end.

Lemma run_reachable (overlay : bool) (d : Dom) (es : list Event) (w w' : World T) :
  reachable overlay d w -> run overlay es w = Some w' -> reachable overlay d w'.
Proof.
  revert w. induction es as [|e es IH]; cbn; intros w Hr Hrun; [congruence|].
  destruct (enabled overlay w e) eqn:He; [|discriminate].
  eapply IH; [|exact Hrun]. eapply reach_step; [exact Hr|]. now constructor.
Qed.

(** ** What the page provides (the markup is not under [src/]) *)

Record page_ok (d : Dom) : Prop := {
  page_hidden : hidden (modal d) = true;
  page_sound : sound d <> None;
  page_instructor : instructor (modal d) <> None;
  page_draws : forall k, (0 <= draw (rng d) k < 1)%Q
}.

(** ** The invariant *)

(** Points of the levels before [lvl]: ten per balloon of each. *)
Definition points_before (lvl : Z) : Z :=
  10 * fold_left Z.add (map numBalloons (firstn (Z.to_nat (lvl - 1)) levels)) 0.

(** The summary on display, by its title. *)
Definition summary_ok (w : World T) : Prop :=
  (title (modal (dom w)) = title_great_job /\ area (dom w) = [] /\ (level w < 3)%Z) \/
  (title (modal (dom w)) = title_game_over /\ area (dom w) = [] /\ level w = 3%Z) \/
  (title (modal (dom w)) = title_times_up /\
     exists c, level_config (level w) = Some c /\ (0 < time c)%Z).

(** A live interval is the one [timer] names, runs only while the modal
    is hidden, and its [timeLeft] is displayed and within the level's
    limit. *)
Definition timer_ok (w : World T) : Prop :=
  forall i t, iv_get (timers w) i = Some t ->
    timer w = Some i /\ hidden (modal (dom w)) = true /\
    timerText (dom w) = "TIMER: " ++ js_num t /\
    exists c, level_config (level w) = Some c /\ (0 < t <= time c)%Z.

Definition area_ok (c : LevelConfig) (d : Dom) : Prop :=
  NoDup (map node (area d)) /\
  (List.length (area d) <= Z.to_nat (numBalloons c))%nat /\
  forall b, In b (area d) ->
    (node b < nextNode d)%nat /\ (10 <= left b <= 90)%Q /\ (10 <= top b <= 90)%Q /\
    transform b = balloon_transform c.

Definition score_ok (c : LevelConfig) (w : World T) : Prop :=
  (points_before (level w) + 10 * (numBalloons c - Z.of_nat (List.length (area (dom w))))
     <= score w)%Z.

Record Inv (w : World T) : Prop := {
  inv_level : (1 <= level w <= 3)%Z;
  inv_sound : sound (dom w) <> None;
  inv_instructor : instructor (modal (dom w)) <> None;
  inv_draws : forall k, (0 <= draw (rng (dom w)) k < 1)%Q;
  inv_wf : iv_wf (timers w);
  inv_timer : timer_ok w;
  inv_summary : hidden (modal (dom w)) = false -> summary_ok w;
  inv_area : forall c, level_config (level w) = Some c -> area_ok c (dom w);
  inv_score : forall c, level_config (level w) = Some c -> score_ok c w
}.

(** ** Timer facts, from the laws of [IntervalService] *)

(** Every live interval is the one [timer] names. *)
Definition live_is_timer (w : World T) : Prop :=
  forall i t, iv_get (timers w) i = Some t -> timer w = Some i.

Lemma timer_ok_live (w : World T) : timer_ok w -> live_is_timer w.
Proof. intros H i t Hg. exact (proj1 (H i t Hg)). Qed.

(** [clearInterval(timer)] leaves no interval live. *)
Lemma clear_timer_none (w : World T) :
  live_is_timer w -> forall j, iv_get (iv_clear (timer w) (timers w)) j = None.
Proof.
  intros H j. destruct (iv_get (timers w) j) as [t|] eqn:Hg.
  - rewrite (H j t Hg), iv_get_clear, Nat.eqb_refl. reflexivity.
  - destruct (timer w) as [i|].
    + rewrite iv_get_clear. now destruct (Nat.eqb i j).
    + now rewrite iv_clear_undefined.
Qed.

(** No interval runs while a summary is shown. *)
Lemma hidden_false_no_live (w : World T) :
  timer_ok w -> hidden (modal (dom w)) = false -> forall j, iv_get (timers w) j = None.
Proof.
  intros H Hh j. destruct (iv_get (timers w) j) as [t|] eqn:Hg; [|reflexivity].
  destruct (H j t Hg) as [_ [Hh' _]]. congruence.
Qed.

Lemma no_live_clear (o : option nat) (ts : T) :
  (forall j, iv_get ts j = None) -> forall j, iv_get (iv_clear o ts) j = None.
Proof.
  intros H j. destruct o as [i|]; [|now rewrite iv_clear_undefined].
  rewrite iv_get_clear. now destruct (Nat.eqb i j).
Qed.

(** [startTimer] after the previous interval is gone: at most the new
    interval is live, it is [timer], and its [timeLeft] is the level's. *)
Lemma timer_world_spec (c : LevelConfig) (w : World T) :
  iv_wf (timers w) -> (forall j, iv_get (iv_clear (timer w) (timers w)) j = None) ->
  score (timer_world c w) = score w /\ level (timer_world c w) = level w /\
  (exists s, dom (timer_world c w) = set_timerText s (dom w)) /\
  iv_wf (timers (timer_world c w)) /\
  (forall j t, iv_get (timers (timer_world c w)) j = Some t ->
     timer (timer_world c w) = Some j /\ t = time c /\ (0 < time c)%Z /\
     timerText (dom (timer_world c w)) = "TIMER: " ++ js_num t).
Proof.
  intros Hwf Hnone. pose proof (iv_wf_clear (timer w) _ Hwf) as Hwf'.
  unfold timer_world. destruct (Z.ltb_spec 0 (time c)) as [Hpos|Hpos].
  - pose proof (iv_set_fresh (time c) _ Hwf') as Hfr.
    pose proof (fun j => iv_get_set (time c) _ j Hwf') as Hgs.
    pose proof (iv_wf_set (time c) _ Hwf') as Hws.
    world_simpl. destruct (iv_set (time c) (iv_clear (timer w) (timers w))) as [id ts].
    cbn in *. do 2 (split; [reflexivity|]). split; [eauto|]. split; [exact Hws|].
    intros j t Hg. rewrite Hgs, Hnone in Hg.
    destruct (Nat.eqb_spec id j) as [<-|]; [|discriminate]. injection Hg as <-. auto.
  - world_simpl. do 2 (split; [reflexivity|]). split; [eauto|]. split; [exact Hwf'|].
    intros j t Hg. rewrite Hnone in Hg. discriminate.
Qed.

(** ** A new level: [startGame] *)

Lemma gen_area_ok (c : LevelConfig) (d : Dom) :
  (forall k, 0 <= draw (rng d) k < 1)%Q ->
  area_ok c (gen_dom c (Z.to_nat (numBalloons c)) (clear_area d)).
Proof.
  intros Hdr. unfold area_ok, gen_dom, clear_area. world_simpl. cbn [app].
  split; [rewrite new_balloons_nodes; apply seq_NoDup|].
  split; [rewrite new_balloons_length; lia|].
  intros b Hin. destruct (new_balloons_in _ _ _ _ _ b Hin) as (_ & Hn & _ & Htr).
  destruct (new_balloons_bounds _ _ _ _ _ b Hdr Hin) as [Hx Hy]. auto.
Qed.

Lemma start_world_spec (c : LevelConfig) (w : World T) :
  iv_wf (timers w) -> live_is_timer w -> (forall k, 0 <= draw (rng (dom w)) k < 1)%Q ->
  score (start_world c w) = score w /\ level (start_world c w) = level w /\
  modal (dom (start_world c w)) = modal (dom w) /\
  sound (dom (start_world c w)) = sound (dom w) /\
  draw (rng (dom (start_world c w))) = draw (rng (dom w)) /\
  area_ok c (dom (start_world c w)) /\
  List.length (area (dom (start_world c w))) = Z.to_nat (numBalloons c) /\
  iv_wf (timers (start_world c w)) /\
  (forall j t, iv_get (timers (start_world c w)) j = Some t ->
     timer (start_world c w) = Some j /\ t = time c /\ (0 < time c)%Z /\
     timerText (dom (start_world c w)) = "TIMER: " ++ js_num t).
Proof.
  intros Hwf Hlive Hdr. unfold start_world.
  set (w1 := set_dom (gen_dom c (Z.to_nat (numBalloons c)) (clear_area (dom w))) w).
  destruct (timer_world_spec c w1 Hwf (clear_timer_none w1 Hlive)) as (Hs & Hl & [s Hd] & Hw & Ht).
  rewrite Hs, Hl, Hd. rewrite Hd in Ht. subst w1. pose proof (gen_area_ok c (dom w) Hdr) as Ha.
  unfold gen_dom, clear_area in *. world_simpl.
  repeat (split; [reflexivity|]). split; [exact Ha|].
  split; [apply new_balloons_length|]. split; [exact Hw|]. exact Ht.
Qed.

Lemma level_config_1 : level_config 1 = Some (mkLevel 15 0 "near").
Proof. reflexivity. Qed.

(** ** The invariant holds when the script has run *)

(** What the script does when it is loaded: [initAudio] and the first
    [startGame] on level 1. *)
Lemma main_start (d : Dom) : page_ok d ->
  exists w0, exec main (initial_world d) = start_world (mkLevel 15 0 "near") w0 /\
    level w0 = 1%Z /\ score w0 = 0%Z /\ timers w0 = iv_empty /\ timer w0 = None /\
    modal (dom w0) = modal d /\ sound (dom w0) <> None /\ draw (rng (dom w0)) = draw (rng d) /\
    scoreText (dom w0) = scoreText d.
Proof.
  intros [Hh Hs Hi Hdr]. unfold exec. rewrite main_eq.
  exists (audio_world (initial_world d)).
  rewrite (startGame_eq (mkLevel 15 0 "near")); [split; [reflexivity|]|];
    unfold audio_world, initial_world; world_simpl;
    destruct (sound d) as [au|]; try congruence; world_simpl;
    repeat split; discriminate || reflexivity.
Qed.

Lemma inv_init (d : Dom) : page_ok d -> Inv (exec main (initial_world d)).
Proof.
  intros Hp. pose proof Hp as [Hh Hs Hi Hdr].
  destruct (main_start d Hp) as (w0 & -> & Hl & Hsc & Hts & _ & Hm & Hs0 & Hd0 & _).
  assert (Hlive : live_is_timer w0) by (intros i t Hg; rewrite Hts, iv_get_empty in Hg; discriminate).
  destruct (start_world_spec (mkLevel 15 0 "near") w0) as (Hs' & Hl' & Hm' & Hso & Hdr' & Ha & Hlen & Hwf & Ht);
    [rewrite Hts; apply iv_wf_empty | exact Hlive | rewrite Hd0; exact Hdr |].
  split.
  - rewrite Hl', Hl. lia.
  - now rewrite Hso.
  - rewrite Hm', Hm. exact Hi.
  - rewrite Hdr', Hd0. exact Hdr.
  - exact Hwf.
  - intros j t Hg. destruct (Ht j t Hg) as (_ & _ & Hpos & _). cbn in Hpos. lia.
  - rewrite Hm', Hm, Hh. discriminate.
  - rewrite Hl', Hl, level_config_1. intros c Hc. injection Hc as <-. exact Ha.
  - rewrite Hl', Hl, level_config_1. intros c Hc. injection Hc as <-.
    unfold score_ok. rewrite Hlen, Hl', Hl, Hs', Hsc. vm_compute. congruence.
Qed.

(** ** Preservation, one event kind at a time *)

Lemma area_ok_ext (c : LevelConfig) (d d' : Dom) :
  area d' = area d -> nextNode d' = nextNode d -> area_ok c d -> area_ok c d'.
Proof. unfold area_ok. intros -> ->. exact id. Qed.

Lemma score_ok_ext (c : LevelConfig) (w w' : World T) :
  score w' = score w -> level w' = level w -> area (dom w') = area (dom w) ->
  score_ok c w -> score_ok c w'.
Proof. unfold score_ok. intros -> -> ->. exact id. Qed.

(** The area, the score and the level are all the invariant's last two
    fields read. *)
Lemma area_score_ext (w w' : World T) :
  score w' = score w -> level w' = level w -> area (dom w') = area (dom w) ->
  nextNode (dom w') = nextNode (dom w) -> Inv w ->
  (forall c, level_config (level w') = Some c -> area_ok c (dom w')) /\
  (forall c, level_config (level w') = Some c -> score_ok c w').
Proof.
  intros Hs Hl Ha Hn HI. rewrite Hl. split; intros c Hc.
  - eapply area_ok_ext; [exact Ha|exact Hn|]. exact (inv_area w HI c Hc).
  - eapply score_ok_ext; [exact Hs|exact Hl|exact Ha|]. exact (inv_score w HI c Hc).
Qed.

Lemma live_put_only (w : World T) (id : nat) (v : Z) (j : nat) (t : Z) :
  live_is_timer w -> timer w = Some id -> iv_get (timers w) id <> None ->
  iv_get (iv_put id v (timers w)) j = Some t -> j = id /\ t = v.
Proof.
  intros Hlive Ht Hid Hg. rewrite iv_get_put in Hg by exact Hid.
  destruct (Nat.eqb_spec id j) as [<-|Hne]; [now injection Hg as <-|].
  apply Hlive in Hg. congruence.
Qed.

Lemma inv_fire (w : World T) (id : nat) (t : Z) :
  Inv w -> iv_get (timers w) id = Some t -> Inv (countdown_world id t w).
Proof.
  intros HI Hg. pose proof HI as [Hl Hs Hi Hdr Hwf Htm Hsum Ha Hsc].
  destruct (Htm id t Hg) as (Hid & Hh & Htext & c & Hc & Ht).
  assert (Hlive : live_is_timer w) by now apply timer_ok_live.
  assert (Hne : iv_get (timers w) id <> None) by congruence.
  pose proof (iv_wf_put id (t - 1) _ Hwf) as Hwf'.
  destruct (area_score_ext w (countdown_world id t w)) as [Ha' Hsc'];
    [unfold countdown_world, tick_world, endLevel_world;
     destruct (Z.leb (t - 1) 0); world_simpl; reflexivity .. | exact HI |].
  unfold countdown_world, tick_world in *. destruct (Z.leb_spec (t - 1) 0) as [Hexp|Hrun].
  - unfold endLevel_world in *. world_simpl. rewrite Hid in *.
    split; try assumption; world_simpl.
    + unfold end_instructor. discriminate.
    + apply iv_wf_clear, iv_wf_clear, Hwf'.
    + intros j t' Hj. world_simpl. rewrite iv_get_clear, iv_get_clear in Hj.
      destruct (Nat.eqb_spec id j) as [<-|Hne']; [discriminate|].
      destruct (live_put_only w id (t - 1) j t' Hlive Hid Hne Hj). congruence.
    + intros _. unfold summary_ok. world_simpl. right; right.
      split; [reflexivity|]. exists c. split; [exact Hc|lia].
  - world_simpl. split; try assumption; world_simpl.
    + intros j t' Hj. world_simpl.
      destruct (live_put_only w id (t - 1) j t' Hlive Hid Hne Hj) as [-> ->].
      split; [exact Hid|]. split; [exact Hh|]. split; [reflexivity|]. exists c. split; [exact Hc|lia].
Qed.

Lemma points_before_next (l : Z) (c : LevelConfig) :
  (1 <= l < 3)%Z -> level_config l = Some c ->
  points_before (l + 1) = (points_before l + 10 * numBalloons c)%Z.
Proof.
  intros Hl Hc. assert (l = 1 \/ l = 2)%Z as [->| ->] by lia;
    cbn in Hc; injection Hc as <-; reflexivity.
Qed.

Lemma timed_level_is_last (l : Z) (c : LevelConfig) :
  level_config l = Some c -> (0 < time c)%Z -> l = 3%Z.
Proof.
  intros Hc Ht. apply level_config_cases in Hc.
  destruct Hc as [[_ ->] | [[_ ->] | [-> _] ] ]; cbn in Ht; lia.
Qed.

(** What [nextLevel] does before [startGame], from a shown summary. *)
Lemma continue_world_spec (w : World T) :
  Inv w -> hidden (modal (dom w)) = false ->
  (1 <= level (continue_world w) <= 3)%Z /\
  hidden (modal (dom (continue_world w))) = true /\
  sound (dom (continue_world w)) = sound (dom w) /\
  instructor (modal (dom (continue_world w))) = instructor (modal (dom w)) /\
  rng (dom (continue_world w)) = rng (dom w) /\
  timers (continue_world w) = timers w /\ timer (continue_world w) = timer w /\
  (points_before (level (continue_world w)) <= score (continue_world w))%Z.
Proof.
  intros HI Hh. pose proof HI as [Hl _ _ _ _ _ Hsum Ha Hsc].
  unfold continue_world.
  destruct (Hsum Hh) as [(Ht & Har & Hlt) | [(Ht & Har & Hl3) | (Ht & c & Hc & Hpos)]];
    rewrite Ht.
  - replace (Z.eqb (level w) 3) with false by lia. replace (Z.ltb (level w) 3) with true by lia.
    cbn [andb]. world_simpl. do 7 (split; [reflexivity || lia|]).
    destruct (level_config_some (level w) Hl) as [c Hc].
    specialize (Hsc c Hc). unfold score_ok in Hsc. rewrite Har in Hsc. cbn [List.length Z.of_nat] in Hsc.
    rewrite (points_before_next (level w) c) by (assumption || lia). lia.
  - rewrite Hl3. cbn. repeat (split; [reflexivity || lia|]). reflexivity.
  - pose proof (timed_level_is_last _ _ Hc Hpos) as Hl3. rewrite Hl3 in *.
    replace (includes title_times_up "GAME OVER") with false by reflexivity.
    rewrite Bool.andb_false_r. cbn [Z.ltb Z.compare Pos.compare Pos.compare_cont]. world_simpl.
    do 7 (split; [reflexivity || lia|]).
    destruct (Ha c Hc) as (_ & Hlen & _). specialize (Hsc c Hc).
    pose proof (level_config_bounds _ _ Hc) as (_ & Hnum & _).
    unfold score_ok in Hsc. rewrite Hl3 in Hsc |- *. lia.
Qed.

(** The summary's button, from a shown summary: [nextLevel]'s update,
    then [startGame] on a level of the table. *)
Lemma continue_eq_start (w : World T) :
  Inv w -> hidden (modal (dom w)) = false ->
  exists c, level_config (level (continue_world w)) = Some c /\
    exec (dispatch Continue) w = start_world c (continue_world w).
Proof.
  intros HI Hh. destruct (continue_world_spec w HI Hh) as (Hl & _).
  destruct (level_config_some _ Hl) as [c Hc]. exists c. split; [exact Hc|].
  unfold exec, dispatch. now rewrite nextLevel_eq, (startGame_eq c) by exact Hc.
Qed.

(** [startGame] on a world where no interval is live and the score covers
    the levels before the current one. *)
Lemma inv_start (w : World T) (c : LevelConfig) :
  level_config (level w) = Some c ->
  (1 <= level w <= 3)%Z -> hidden (modal (dom w)) = true ->
  sound (dom w) <> None -> instructor (modal (dom w)) <> None ->
  (forall k, 0 <= draw (rng (dom w)) k < 1)%Q -> iv_wf (timers w) ->
  (forall j, iv_get (timers w) j = None) -> (points_before (level w) <= score w)%Z ->
  Inv (start_world c w).
Proof.
  intros Hc Hl Hh Hs Hi Hdr Hwf Hnone Hsc.
  assert (Hlive : live_is_timer w) by (intros j t Hg; congruence).
  destruct (start_world_spec c w Hwf Hlive Hdr)
    as (Hs' & Hl' & Hm' & Hso & Hdr' & Ha & Hlen & Hwf' & Ht).
  pose proof (level_config_bounds _ _ Hc) as (_ & Hnum & _).
  split; rewrite ?Hl', ?Hm', ?Hso, ?Hdr'; try assumption.
  - intros j t Hg. destruct (Ht j t Hg) as (Htm & -> & Hpos & Htext).
    split; [exact Htm|]. split; [rewrite Hm'; exact Hh|]. split; [exact Htext|].
    exists c. rewrite Hl'. split; [exact Hc|lia].
  - congruence.
  - intros c' Hc'. rewrite Hc in Hc'. injection Hc' as <-. exact Ha.
  - intros c' Hc'. rewrite Hc in Hc'. injection Hc' as <-.
    unfold score_ok. rewrite Hlen, Hs', Hl'. lia.
Qed.

Lemma inv_continue (w : World T) :
  Inv w -> hidden (modal (dom w)) = false -> Inv (exec nextLevel w).
Proof.
  intros HI Hh. pose proof HI as [_ Hs Hi Hdr Hwf Htm _ _ _].
  destruct (continue_world_spec w HI Hh) as (Hl & Hh' & Hso & Hin & Hr & Hts & _ & Hsc).
  destruct (continue_eq_start w HI Hh) as (c & Hc & Hex). change (exec nextLevel w) with
    (exec (dispatch Continue) w). rewrite Hex.
  apply inv_start; rewrite ?Hso, ?Hin, ?Hr, ?Hts; try assumption.
  intros j. exact (hidden_false_no_live w Htm Hh j).
Qed.

Lemma inv_hit (w : World T) (b : Balloon) (au : Audio) :
  Inv w -> In b (area (dom w)) -> sound (dom w) = Some au -> Inv (hit_world b au w).
Proof.
  intros HI Hin Hs. pose proof HI as [Hl _ Hi Hdr Hwf Htm Hsum Ha Hsc].
  assert (Hatt : attached (node b) (dom w) = true).
  { apply existsb_exists. exists b. split; [exact Hin|apply Nat.eqb_refl]. }
  unfold hit_world. split; world_simpl; try assumption.
  - discriminate.
  - intros Hh. destruct (Hsum Hh) as [(? & Har & ?) | [(? & Har & ?) | Htu]];
      [rewrite Har in Hin; destruct Hin .. | right; right; exact Htu].
  - intros c Hc. destruct (Ha c Hc) as (Hnd & Hlen & Hb).
    pose proof (remove_node_attached_count (node b) (dom w) Hnd Hatt) as Hcnt.
    unfold count_balloons in Hcnt. split; [|split].
    + exact (remove_node_nodup (node b) (dom w) Hnd).
    + cbn in Hcnt |- *. lia.
    + intros b' Hb'. apply remove_node_incl in Hb' as [Hb' _]. exact (Hb b' Hb').
  - intros c Hc. destruct (Ha c Hc) as (Hnd & _ & _). specialize (Hsc c Hc).
    pose proof (remove_node_attached_count (node b) (dom w) Hnd Hatt) as Hcnt.
    unfold count_balloons, remove_node in Hcnt. world_simpl.
    assert (Hpos : (0 < List.length (area (dom w)))%nat)
      by (destruct (area (dom w)); [destruct Hin | cbn; lia]).
    unfold score_ok, remove_node in *. world_simpl. rewrite Hcnt. lia.
Qed.

(** A hit removes exactly one balloon: the nodes are distinct. *)
Lemma hit_count (w : World T) (b : Balloon) (au : Audio) :
  Inv w -> In b (area (dom w)) ->
  count_balloons (dom (hit_world b au w)) = pred (List.length (area (dom w))).
Proof.
  intros HI Hin. destruct (level_config_some _ (inv_level w HI)) as [c Hc].
  destruct (inv_area w HI c Hc) as (Hnd & _).
  assert (Hatt : attached (node b) (dom w) = true).
  { apply existsb_exists. exists b. split; [exact Hin|apply Nat.eqb_refl]. }
  pose proof (remove_node_attached_count (node b) (dom w) Hnd Hatt) as Hcnt.
  unfold hit_world, count_balloons, remove_node in *. world_simpl. exact Hcnt.
Qed.

(** [endLevel()] once the last balloon is gone. *)
Lemma inv_level_complete (w : World T) :
  Inv w -> area (dom w) = [] -> Inv (endLevel_world false w).
Proof.
  intros HI Har. pose proof HI as [Hl Hs Hi Hdr Hwf Htm _ Ha Hsc].
  unfold endLevel_world. split; world_simpl; try assumption.
  - unfold end_instructor. destruct (Z.ltb (level w) 3); [|discriminate].
    destruct (Z.eqb (level w) 1); [discriminate|]. destruct (Z.eqb (level w) 2); [discriminate|exact Hi].
  - apply iv_wf_clear, Hwf.
  - intros j t Hg. world_simpl. rewrite (clear_timer_none w (timer_ok_live w Htm) j) in Hg. discriminate.
  - intros _. unfold summary_ok, end_title. world_simpl.
    destruct (Z.ltb_spec (level w) 3); [left | right; left]; repeat split; (assumption || lia).
Qed.

(** Every enabled event's handler returns normally and keeps [Inv]. *)
Lemma dispatch_inv (overlay : bool) (w : World T) (e : Event) :
  Inv w -> enabled overlay w e = true ->
  exists w', dispatch e w = (Ret tt, w') /\ Inv w'.
Proof.
  intros HI He. pose proof HI as [Hl Hs Hi _ _ Htm _ _ _].
  destruct e as [|i| |id]; cbn [enabled dispatch] in He |- *.
  - exists w. split; [reflexivity|exact HI].
  - apply andb_prop in He as [Hi' _]. apply Nat.ltb_lt, nth_error_Some in Hi'.
    destruct (nth_error (area (dom w)) i) as [b|] eqn:Hb; [|congruence].
    destruct (sound (dom w)) as [au|] eqn:Hau; [|congruence].
    unfold dom_get. js_run. rewrite Hb. rewrite (popBalloon_eq b au w Hau Hi).
    eexists. split; [reflexivity|]. unfold pop_world.
    pose proof (inv_hit w b au HI (nth_error_In _ _ Hb) Hau) as HI'.
    destruct (Nat.eqb_spec (count_balloons (dom (hit_world b au w))) 0) as [H0|H0];
      [|exact HI'].
    apply inv_level_complete; [exact HI'|]. apply length_zero_iff_nil, H0.
  - apply negb_true_iff in He.
    pose proof (inv_continue w HI He) as HI'. unfold exec in HI'.
    destruct (continue_world_spec w HI He) as (Hl' & _).
    destruct (level_config_some _ Hl') as [c Hc].
    rewrite nextLevel_eq, (startGame_eq c) in HI' |- * by exact Hc.
    eexists. split; [reflexivity|exact HI'].
  - destruct (iv_get (timers w) id) as [t|] eqn:Hg; [|discriminate].
    rewrite (countdown_eq id t w Hg Hi). eexists. split; [reflexivity|].
    exact (inv_fire w id t HI Hg).
Qed.

Lemma inv_step (overlay : bool) (w w' : World T) (e : Event) :
  Inv w -> step overlay w e w' -> Inv w'.
Proof.
  intros HI Hs. destruct Hs as [w e He].
  destruct (dispatch_inv overlay w e HI He) as (w'' & Hd & HI').
  unfold exec. now rewrite Hd.
Qed.

(** What a step does, by event kind: a click on the empty area changes
    nothing; a click on a balloon pops it; the summary's button runs
    [nextLevel]'s update and then [startGame] on the new level; a firing
    runs the countdown. *)
Lemma step_cases (overlay : bool) (w w' : World T) (e : Event) :
  Inv w -> step overlay w e w' ->
  w' = w \/
  (exists b au, In b (area (dom w)) /\ sound (dom w) = Some au /\
     (overlay = true -> hidden (modal (dom w)) = true) /\ w' = pop_world b au w) \/
  (hidden (modal (dom w)) = false /\
     exists c, level_config (level (continue_world w)) = Some c /\
       w' = start_world c (continue_world w)) \/
  (exists id t, iv_get (timers w) id = Some t /\ w' = countdown_world id t w).
Proof.
  intros HI Hst. pose proof HI as [_ Hs Hi _ _ _ _ _ _].
  destruct Hst as [w e He]. destruct e as [|i| |id]; cbn [enabled] in He.
  - left. reflexivity.
  - apply andb_prop in He as [Hi' Hh]. apply Nat.ltb_lt, nth_error_Some in Hi'.
    destruct (nth_error (area (dom w)) i) as [b|] eqn:Hb; [|congruence].
    destruct (sound (dom w)) as [au|] eqn:Hau; [|congruence].
    right; left. exists b, au. split; [exact (nth_error_In _ _ Hb)|]. split; [reflexivity|].
    split; [intros ->; exact Hh|].
    unfold exec, dispatch, dom_get. js_run. now rewrite Hb, (popBalloon_eq b au w Hau Hi).
  - apply negb_true_iff in He. right; right; left. split; [exact He|].
    exact (continue_eq_start w HI He).
  - destruct (iv_get (timers w) id) as [t|] eqn:Hg; [|discriminate].
    right; right; right. exists id, t. split; [exact Hg|].
    unfold exec, dispatch. now rewrite (countdown_eq id t w Hg Hi).
Qed.

Lemma inv_reachable (overlay : bool) (d : Dom) (w : World T) :
  page_ok d -> reachable overlay d w -> Inv w.
Proof.
  intros Hp Hr. induction Hr as [|w e w' _ IH Hs].
  - exact (inv_init d Hp).
  - exact (inv_step overlay w w' e IH Hs).
Qed.

(** ** Properties of reachable worlds *)

Lemma title_cases_distinct :
  title_great_job <> title_game_over /\ title_great_job <> title_times_up /\
  title_game_over <> title_times_up.
Proof. repeat split; discriminate. Qed.

(** C3: in every reachable world, an interval that is live is the one
    the global [timer] names (so at most one countdown runs), it runs
    only while no summary is shown, and its [timeLeft] is between 1 and
    the level's limit, shown on the page. *)
Theorem live_interval_is_timer (overlay : bool) (d : Dom) (w : World T) (i : nat) (t : Z) :
  page_ok d -> reachable overlay d w -> iv_get (timers w) i = Some t ->
  timer w = Some i /\ hidden (modal (dom w)) = true /\
  timerText (dom w) = "TIMER: " ++ js_num t /\ (0 < t <= 15)%Z.
Proof.
  intros Hp Hr Hg. destruct (inv_timer w (inv_reachable overlay d w Hp Hr) i t Hg)
    as (Ht & Hh & Htx & c & Hc & Hb).
  pose proof (level_config_bounds _ _ Hc). repeat split; (assumption || lia).
Qed.

(** C4: on a page with every element the script uses, no handler of an
    enabled event throws in a reachable world: no [TypeError] from a
    missing element or from [levels[level - 1]] being [undefined]. *)
Theorem handlers_never_throw (overlay : bool) (d : Dom) (w : World T) (e : Event) :
  page_ok d -> reachable overlay d w -> enabled overlay w e = true ->
  exists w', dispatch e w = (Ret tt, w').
Proof.
  intros Hp Hr He. destruct (dispatch_inv overlay w e (inv_reachable overlay d w Hp Hr) He)
    as (w' & Hd & _). eauto.
Qed.

(** C6: whenever the "GAME OVER" summary is shown, the score is at least
    500, the points of all three levels, so the prize is always the big
    one: the medium and small prizes of line 115 are never awarded. *)
Theorem game_over_prize_is_big (overlay : bool) (d : Dom) (w : World T) :
  page_ok d -> reachable overlay d w ->
  hidden (modal (dom w)) = false -> title (modal (dom w)) = title_game_over ->
  (500 <= score w)%Z /\ prize (score w) = "BIG PRIZE".
Proof.
  intros Hp Hr Hh Ht. pose proof (inv_reachable overlay d w Hp Hr) as HI.
  pose proof title_cases_distinct as (D1 & D2 & D3).
  destruct (inv_summary w HI Hh) as [(Ht' & _) | [(_ & Har & Hl3) | (Ht' & _)]];
    [congruence | | congruence].
  assert (Hc : level_config (level w) = Some (mkLevel 20 15 "far")) by now rewrite Hl3.
  pose proof (inv_score w HI _ Hc) as Hsc. unfold score_ok in Hsc.
  rewrite Har, Hl3 in Hsc. vm_compute in Hsc.
  assert (H500 : (500 <= score w)%Z) by (unfold Z.le; exact Hsc).
  split; [exact H500|]. unfold prize. now replace (Z.leb 100 (score w)) with true by lia.
Qed.

(** C7: [startTimer] cancels whatever interval [timer] names before it
    creates the next one: from any world where only [timer]'s interval
    may be live, afterwards only the new [timer] is live, with the
    level's [time] as its [timeLeft]. *)
Theorem startTimer_cancels_previous (c : LevelConfig) (w : World T) :
  level_config (level w) = Some c -> iv_wf (timers w) -> live_is_timer w ->
  live_is_timer (exec startTimer w) /\
  forall j t, iv_get (timers (exec startTimer w)) j = Some t -> t = time c.
Proof.
  intros Hc Hwf Hlive. unfold exec. rewrite (startTimer_eq c w Hc). cbn [snd].
  destruct (timer_world_spec c w Hwf (clear_timer_none w Hlive)) as (_ & _ & _ & _ & Ht).
  split; intros j t Hg; destruct (Ht j t Hg) as (? & ? & _); assumption.
Qed.

(** C8: the race between the last pop and the countdown: when the last
    balloon is popped, [endLevel()] runs inside the same handler and
    cancels the interval, so no [Fire] event can follow and the summary
    is "GREAT JOB" or "GAME OVER", never "TIME'S UP". *)
Theorem last_pop_cancels_countdown (overlay : bool) (d : Dom) (w w' : World T) (b : Balloon) :
  page_ok d -> reachable overlay d w -> area (dom w) = [b] ->
  step overlay w (ClickBalloon 0) w' ->
  (forall j, iv_get (timers w') j = None) /\ hidden (modal (dom w')) = false /\
  (title (modal (dom w')) = title_great_job \/ title (modal (dom w')) = title_game_over).
Proof.
  intros Hp Hr Har Hs. pose proof (inv_reachable overlay d w Hp Hr) as HI.
  pose proof HI as [_ Hso Hi _ _ Htm _ _ _].
  inversion Hs as [? ? He]; subst.
  destruct (sound (dom w)) as [au|] eqn:Hau; [|congruence].
  unfold exec, dispatch, dom_get. js_run. rewrite Har. cbn [nth_error].
  rewrite (popBalloon_eq b au w Hau Hi). unfold pop_world, hit_world, count_balloons, remove_node.
  world_simpl. rewrite Har. cbn [filter]. rewrite Nat.eqb_refl. cbn.
  split; [|split; [reflexivity|]].
  - intros j. apply (clear_timer_none w (timer_ok_live w Htm)).
  - unfold end_title. destruct (Z.ltb (level w) 3); auto.
Qed.

(** C12: [level] stays within the table, so [levels[level - 1]] is never
    [undefined] in a reachable world. *)
Theorem level_always_defined (overlay : bool) (d : Dom) (w : World T) :
  page_ok d -> reachable overlay d w ->
  (1 <= level w <= 3)%Z /\ exists c, level_config (level w) = Some c.
Proof.
  intros Hp Hr. pose proof (inv_level w (inv_reachable overlay d w Hp Hr)) as Hl.
  split; [exact Hl|]. exact (level_config_some _ Hl).
Qed.

(** [n] firings of interval [id] with no other event in between. *)
Fixpoint fire_n (id : nat) (n : nat) (w : World T) : World T :=
  match n with
  | O => w
  | S n' => fire_n id n' (exec (countdown id) w)
  end.

Lemma fire_once_live (w : World T) (id : nat) (t : Z) :
  Inv w -> iv_get (timers w) id = Some t -> (1 < t)%Z ->
  Inv (exec (countdown id) w) /\ iv_get (timers (exec (countdown id) w)) id = Some (t - 1)%Z /\
  score (exec (countdown id) w) = score w.
Proof.
  intros HI Hg Ht. unfold exec. rewrite (countdown_eq id t w Hg (inv_instructor w HI)).
  cbn [snd]. split; [exact (inv_fire w id t HI Hg)|].
  unfold countdown_world, tick_world. replace (Z.leb (t - 1) 0) with false by lia.
  world_simpl. rewrite iv_get_put, Nat.eqb_refl by congruence. split; reflexivity.
Qed.

Lemma fire_once_last (w : World T) (id : nat) :
  Inv w -> iv_get (timers w) id = Some 1%Z ->
  hidden (modal (dom (exec (countdown id) w))) = false /\
  title (modal (dom (exec (countdown id) w))) = title_times_up /\
  (forall j, iv_get (timers (exec (countdown id) w)) j = None) /\
  score (exec (countdown id) w) = score w.
Proof.
  intros HI Hg. pose proof HI as [_ _ Hi _ _ Htm _ _ _].
  destruct (Htm id 1%Z Hg) as (Hid & _).
  unfold exec. rewrite (countdown_eq id 1 w Hg Hi). cbn [snd].
  unfold countdown_world, tick_world, endLevel_world. replace (Z.leb (1 - 1) 0) with true by reflexivity. world_simpl.
  rewrite Hid. repeat split.
  intros j. world_simpl. rewrite !iv_get_clear. destruct (Nat.eqb_spec id j) as [<-|Hne]; [reflexivity|].
  rewrite iv_get_put by congruence. apply Nat.eqb_neq in Hne. rewrite Hne.
  destruct (iv_get (timers w) j) as [t'|] eqn:Hj; [|reflexivity].
  destruct (Htm j t' Hj) as (Hj' & _). rewrite Hid in Hj'. injection Hj' as ->. now rewrite Nat.eqb_refl in Hne.
Qed.

Lemma fire_n_spec (id : nat) (n : nat) :
  forall (overlay : bool) (w : World T) (t : Z),
  Inv w -> iv_get (timers w) id = Some t -> t = Z.of_nat (S n) ->
  (forall k, (k <= n)%nat -> enabled overlay (fire_n id k w) (Fire id) = true) /\
  hidden (modal (dom (fire_n id (S n) w))) = false /\
  title (modal (dom (fire_n id (S n) w))) = title_times_up /\
  (forall j, iv_get (timers (fire_n id (S n) w)) j = None) /\
  score (fire_n id (S n) w) = score w.
Proof.
  induction n as [|n IH]; intros overlay w t HI Hg Ht.
  - subst t. split.
    + intros k Hk. assert (k = 0%nat) as -> by lia. cbn. now rewrite Hg.
    + exact (fire_once_last w id HI Hg).
  - destruct (fire_once_live w id t HI Hg) as (HI' & Hg' & Hs); [lia|].
    destruct (IH overlay _ (t - 1)%Z HI' Hg') as (Hen & Hh & Hti & Hno & Hs'); [lia|].
    split; [|cbn [fire_n] in *; rewrite Hs' in *; auto].
    intros [|k] Hk; [cbn; now rewrite Hg|]. apply Hen. lia.
Qed.

(** C9: once a countdown is live with [timeLeft = t], [t] firings in a
    row (each one enabled) end the level with the "TIME'S UP" summary,
    no interval left live and the score unchanged: the countdown
    terminates after at most 15 ticks. *)
Theorem countdown_expires (overlay : bool) (d : Dom) (w : World T) (id : nat) (t : Z) :
  page_ok d -> reachable overlay d w -> iv_get (timers w) id = Some t ->
  (forall k, (k < Z.to_nat t)%nat -> enabled overlay (fire_n id k w) (Fire id) = true) /\
  hidden (modal (dom (fire_n id (Z.to_nat t) w))) = false /\
  title (modal (dom (fire_n id (Z.to_nat t) w))) = title_times_up /\
  (forall j, iv_get (timers (fire_n id (Z.to_nat t) w)) j = None) /\
  score (fire_n id (Z.to_nat t) w) = score w.
Proof.
  intros Hp Hr Hg. pose proof (inv_reachable overlay d w Hp Hr) as HI.
  destruct (inv_timer w HI id t Hg) as (_ & _ & _ & c & _ & Ht).
  rewrite (Z_to_nat_pos_S t) by lia.
  destruct (fire_n_spec id (Z.to_nat (t - 1)) overlay w t HI Hg) as (Hen & Hrest); [lia|].
  split; [|exact Hrest]. intros k Hk. apply Hen. lia.
Qed.

Lemma summary_by_title (w : World T) :
  Inv w -> hidden (modal (dom w)) = false ->
  (title (modal (dom w)) = title_great_job -> area (dom w) = [] /\ (level w < 3)%Z) /\
  (title (modal (dom w)) = title_game_over -> area (dom w) = [] /\ level w = 3%Z) /\
  (title (modal (dom w)) = title_times_up -> level w = 3%Z).
Proof.
  intros HI Hh. pose proof title_cases_distinct as (D1 & D2 & D3).
  destruct (inv_summary w HI Hh) as [(Ht & Ha & Hl) | [(Ht & Ha & Hl) | (Ht & c & Hc & Hp)]];
    rewrite Ht.
  - split; [intros _; split; assumption|]. split; intros E; congruence.
  - split; [intros E; congruence|]. split; [intros _; split; assumption|intros E; congruence].
  - split; [intros E; congruence|]. split; [intros E; congruence|].
    intros _. exact (timed_level_is_last _ _ Hc Hp).
Qed.

Lemma exec_continue (w : World T) :
  Inv w -> hidden (modal (dom w)) = false ->
  level (exec (dispatch Continue) w) = level (continue_world w) /\
  score (exec (dispatch Continue) w) = score (continue_world w).
Proof.
  intros HI Hh. destruct (continue_eq_start w HI Hh) as (c & _ & ->).
  exact (start_world_level_score c _).
Qed.

(** The level and score [nextLevel] sets, by the summary shown. *)
Lemma continue_world_cases (w : World T) :
  Inv w -> hidden (modal (dom w)) = false ->
  (title (modal (dom w)) = title_great_job ->
     level (continue_world w) = (level w + 1)%Z /\ score (continue_world w) = score w) /\
  (title (modal (dom w)) = title_game_over ->
     level (continue_world w) = 1%Z /\ score (continue_world w) = 0%Z) /\
  (title (modal (dom w)) = title_times_up ->
     level (continue_world w) = level w /\ score (continue_world w) = score w).
Proof.
  intros HI Hh. destruct (summary_by_title w HI Hh) as (Hgj & Hgo & Htu).
  unfold continue_world. split; [|split]; intros Ht; rewrite Ht.
  - destruct (Hgj Ht) as [_ Hl]. replace (Z.eqb (level w) 3) with false by lia.
    replace (Z.ltb (level w) 3) with true by lia. split; reflexivity.
  - rewrite (proj2 (Hgo Ht)). split; reflexivity.
  - pose proof (Htu Ht) as Hl3. rewrite Hl3.
    replace (includes title_times_up "GAME OVER") with false by reflexivity.
    rewrite Bool.andb_false_r. cbn [Z.ltb Z.compare Pos.compare Pos.compare_cont]. world_simpl.
    split; [exact Hl3|reflexivity].
Qed.

(** C11: what the summary's button does, by the summary shown: after
    "GREAT JOB" the next level starts with the score kept; after
    "GAME OVER" the game restarts at level 1 with score 0; after
    "TIME'S UP" the same level starts again with the score kept. *)
Theorem continue_transitions (overlay : bool) (d : Dom) (w : World T) :
  page_ok d -> reachable overlay d w -> hidden (modal (dom w)) = false ->
  (title (modal (dom w)) = title_great_job ->
     level (exec (dispatch Continue) w) = (level w + 1)%Z /\
     score (exec (dispatch Continue) w) = score w) /\
  (title (modal (dom w)) = title_game_over ->
     level (exec (dispatch Continue) w) = 1%Z /\ score (exec (dispatch Continue) w) = 0%Z) /\
  (title (modal (dom w)) = title_times_up ->
     level (exec (dispatch Continue) w) = level w /\
     score (exec (dispatch Continue) w) = score w).
Proof.
  intros Hp Hr Hh. pose proof (inv_reachable overlay d w Hp Hr) as HI.
  destruct (exec_continue w HI Hh) as [-> ->]. exact (continue_world_cases w HI Hh).
Qed.
(** A click on the [i]-th balloon pops it. *)
Lemma exec_click (w : World T) (i : nat) (b : Balloon) :
  Inv w -> nth_error (area (dom w)) i = Some b ->
  exists au, sound (dom w) = Some au /\ exec (dispatch (ClickBalloon i)) w = pop_world b au w.
Proof.
  intros HI Hb. pose proof HI as [_ Hs Hi _ _ _ _ _ _].
  destruct (sound (dom w)) as [au|] eqn:Hau; [|congruence]. exists au. split; [reflexivity|].
  unfold exec, dispatch, dom_get. js_run. now rewrite Hb, (popBalloon_eq b au w Hau Hi).
Qed.

(** A firing of interval [id], from the countdown's [timeLeft = t]. *)
Lemma exec_fire (w : World T) (id : nat) (t : Z) :
  Inv w -> iv_get (timers w) id = Some t -> exec (dispatch (Fire id)) w = countdown_world id t w.
Proof.
  intros HI Hg. unfold exec, dispatch. now rewrite (countdown_eq id t w Hg (inv_instructor w HI)).
Qed.

(** ** Interleaving *)

(** C19: a tick that does not end the level and a pop that does not
    empty the play area commute: handling them in either order gives the
    same world.  The order of the countdown and the clicks matters only
    at the end of a level (see [last_pop_cancels_countdown]). *)
Theorem hit_tick_commute (overlay : bool) (d : Dom) (w : World T) (i id : nat) (t : Z) :
  page_ok d -> reachable overlay d w -> (i < List.length (area (dom w)))%nat ->
  (2 <= List.length (area (dom w)))%nat -> iv_get (timers w) id = Some t -> (1 < t)%Z ->
  exec (dispatch (Fire id)) (exec (dispatch (ClickBalloon i)) w) =
  exec (dispatch (ClickBalloon i)) (exec (dispatch (Fire id)) w).
Proof.
  intros Hp Hr Hi H2 Hg Ht. pose proof (inv_reachable overlay d w Hp Hr) as HI.
  apply nth_error_Some in Hi. destruct (nth_error (area (dom w)) i) as [b|] eqn:Hb; [|congruence].
  pose proof (nth_error_In _ _ Hb) as Hin.
  destruct (exec_click w i b HI Hb) as (au & Hau & ->). rewrite (exec_fire w id t HI Hg).
  assert (Hlast : Nat.eqb (count_balloons (dom (hit_world b au w))) 0 = false)
    by (rewrite (hit_count w b au HI Hin); apply Nat.eqb_neq; lia).
  assert (Htick : countdown_world id t w = tick_world id t w)
    by (unfold countdown_world; now replace (Z.leb (t - 1) 0) with false by lia).
  assert (HI' : Inv (tick_world id t w)).
  { rewrite <- Htick. exact (inv_fire w id t HI Hg). }
  unfold pop_world. rewrite Hlast, Htick.
  rewrite (exec_fire (hit_world b au w) id t); [|exact (inv_hit w b au HI Hin Hau)|
    unfold hit_world; world_simpl; exact Hg].
  destruct (exec_click (tick_world id t w) i b HI') as (au' & Hau' & ->);
    [unfold tick_world; world_simpl; exact Hb|].
  unfold tick_world in Hau'. world_simpl. rewrite Hau in Hau'. injection Hau' as <-.
  unfold pop_world, countdown_world. replace (Z.leb (t - 1) 0) with false by lia.
  replace (count_balloons (dom (hit_world b au (tick_world id t w)))) with
    (count_balloons (dom (hit_world b au w))) by reflexivity.
  rewrite Hlast. reflexivity.
Qed.

(** ** Well-formedness of the page and the timers *)

(** C13: the shapes the script relies on hold in every reachable world:
    the interval table is well formed, and [#target-area] holds only
    balloons of the current level: distinct nodes created by the script
    (below the node counter), at most [numBalloons] of them, each at a
    position in [10, 90] x [10, 90] with the level's transform. *)
Theorem world_well_formed (overlay : bool) (d : Dom) (w : World T) :
  page_ok d -> reachable overlay d w ->
  iv_wf (timers w) /\ exists c, level_config (level w) = Some c /\ area_ok c (dom w).
Proof.
  intros Hp Hr. pose proof (inv_reachable overlay d w Hp Hr) as HI.
  destruct (level_config_some _ (inv_level w HI)) as [c Hc].
  split; [exact (inv_wf w HI)|]. exists c. split; [exact Hc|exact (inv_area w HI c Hc)].
Qed.

(** C10: the specification's testable property for untimed levels: while
    the level in [level] has no time limit, no countdown is live, in every
    reachable world; so clearing such a level ends it with
    [endLevel(false)] and never starts a countdown. *)
Theorem untimed_no_countdown (overlay : bool) (d : Dom) (w : World T) (c : LevelConfig) :
  page_ok d -> reachable overlay d w -> level_config (level w) = Some c -> time c = 0%Z ->
  forall i, iv_get (timers w) i = None.
Proof.
  intros Hp Hr Hc Ht i. pose proof (inv_reachable overlay d w Hp Hr) as HI.
  destruct (iv_get (timers w) i) as [t|] eqn:Hg; [|reflexivity].
  destruct (inv_timer w HI i t Hg) as (_ & _ & _ & c' & Hc' & Hb).
  rewrite Hc in Hc'. injection Hc' as <-. lia.
Qed.

(** ** The score per event *)

Lemma inv_score_nonneg (w : World T) : Inv w -> (0 <= score w)%Z.
Proof.
  intros HI. pose proof (inv_level w HI) as Hl. destruct (level_config_some _ Hl) as [c Hc].
  pose proof (inv_score w HI c Hc) as Hs. destruct (inv_area w HI c Hc) as (_ & Hlen & _).
  pose proof (level_config_bounds _ _ Hc) as (_ & Hn & _). unfold score_ok in Hs.
  assert (Hpb : (0 <= points_before (level w))%Z)
    by (assert (level w = 1 \/ level w = 2 \/ level w = 3)%Z as [-> | [-> | ->]] by lia;
        vm_compute; discriminate).
  lia.
Qed.

(** One event adds at most 10 points, or resets the score to 0. *)
Lemma step_score (overlay : bool) (w w' : World T) (e : Event) :
  Inv w -> step overlay w e w' ->
  score w' = 0%Z \/ (score w <= score w' <= score w + 10)%Z.
Proof.
  intros HI Hst.
  destruct (step_cases overlay w w' e HI Hst)
    as [-> | [(b & au & _ & _ & _ & ->) | [(_ & c & _ & ->) | (id & t & _ & ->)]]].
  - right. lia.
  - right. unfold pop_world, hit_world, endLevel_world.
    destruct (Nat.eqb _ 0); world_simpl; lia.
  - rewrite (proj2 (start_world_level_score c _)). unfold continue_world.
    destruct (Z.eqb (level w) 3 && _); [left; reflexivity|right].
    destruct (Z.ltb (level w) 3); world_simpl; lia.
  - right. unfold countdown_world, tick_world, endLevel_world.
    destruct (Z.leb (t - 1) 0); world_simpl; lia.
Qed.

(** C20: every number the script computes for the score is a small
    integer: along any sequence of enabled events from a reachable
    world, the score stays non-negative and grows by at most 10 per
    event.  A double holds it exactly (below 2^53) for the first 9 * 10^14
    events, which is why [Z] models it. *)
Theorem score_per_event (overlay : bool) (d : Dom) (es : list Event) (w w' : World T) :
  page_ok d -> reachable overlay d w -> run overlay es w = Some w' ->
  (0 <= score w' <= score w + 10 * Z.of_nat (List.length es))%Z.
Proof.
  intros Hp Hr. revert w Hr. induction es as [|e es IH]; intros w Hr Hrun; cbn [run] in Hrun.
  - injection Hrun as <-. pose proof (inv_score_nonneg w (inv_reachable overlay d w Hp Hr)). lia.
  - destruct (enabled overlay w e) eqn:He; [|discriminate].
    pose proof (step_run overlay w e He) as Hst. pose proof (inv_reachable overlay d w Hp Hr) as HI.
    specialize (IH _ (reach_step overlay d w e _ Hr Hst) Hrun).
    pose proof (inv_score_nonneg w HI).
    destruct (step_score overlay w _ e HI Hst) as [H0|H0]; cbn [List.length]; lia.
Qed.

End Session.

#[export] Hint Resolve inv_level inv_sound inv_instructor inv_wf inv_timer inv_draws
  timer_ok_live clear_timer_none : js.

(** ** Concrete runs from [demo_page], and the witnesses *)

Definition pops (n : nat) : list Event := repeat (ClickBalloon 0) n.

(** Clear level 1, continue, clear level 2, continue. *)
Definition to_level3 : list Event := pops 15 ++ [Continue] ++ pops 15 ++ [Continue].

Definition run_from (overlay : bool) (es : list Event) : World Intervals :=
  match run overlay es demo_world with Some w => w | None => demo_world end.

Definition demo_level3 : World Intervals := run_from true to_level3.
Definition demo_game_over : World Intervals := run_from true (to_level3 ++ pops 20).
Definition demo_last_balloon : World Intervals := run_from true (pops 14).
Definition demo_last_b : Balloon :=
  match area (dom demo_last_balloon) with b :: _ => b | [] => mkBalloon 0 0 0 "" end.

Lemma demo_page_ok : page_ok demo_page.
Proof. split; [reflexivity | discriminate | discriminate | intros k; split; vm_compute; congruence]. Qed.

Lemma reachable_run (overlay : bool) (es : list Event) :
  run overlay es demo_world <> None -> reachable overlay demo_page (run_from overlay es).
Proof.
  unfold run_from. destruct (run overlay es demo_world) as [w|] eqn:E; [|congruence].
  intros _. exact (run_reachable overlay demo_page es demo_world w (reach_start _ _) E).
Qed.

Lemma live_interval_is_timer_witness : timer demo_level3 = Some 1%nat.
Proof.
  destruct (live_interval_is_timer true demo_page demo_level3 1 15) as [H _].
  - exact demo_page_ok.
  - apply reachable_run. vm_compute. discriminate.
  - vm_compute. reflexivity.
  - exact H.
Defined.

Lemma handlers_never_throw_witness : exists w', dispatch (Fire 1) demo_level3 = (Ret tt, w').
Proof.
  apply (handlers_never_throw true demo_page demo_level3 (Fire 1)).
  - exact demo_page_ok.
  - apply reachable_run. vm_compute. discriminate.
  - vm_compute. reflexivity.
Defined.

Lemma game_over_prize_is_big_witness : prize (score demo_game_over) = "BIG PRIZE".
Proof.
  destruct (game_over_prize_is_big true demo_page demo_game_over) as [_ H].
  - exact demo_page_ok.
  - apply reachable_run. vm_compute. discriminate.
  - vm_compute. reflexivity.
  - vm_compute. reflexivity.
  - exact H.
Defined.

Lemma startTimer_cancels_previous_witness : live_is_timer (exec startTimer demo_level3).
Proof.
  assert (HI : Inv demo_level3).
  { apply (inv_reachable true demo_page); [exact demo_page_ok|].
    apply reachable_run. vm_compute. discriminate. }
  destruct (startTimer_cancels_previous (mkLevel 20 15 "far") demo_level3) as [H _].
  - vm_compute. reflexivity.
  - exact (inv_wf _ HI).
  - exact (timer_ok_live _ (inv_timer _ HI)).
  - exact H.
Defined.

Lemma last_pop_cancels_countdown_witness :
  hidden (modal (dom (exec (dispatch (ClickBalloon 0)) demo_last_balloon))) = false.
Proof.
  destruct (last_pop_cancels_countdown true demo_page demo_last_balloon
              (exec (dispatch (ClickBalloon 0)) demo_last_balloon) demo_last_b) as (_ & H & _).
  - exact demo_page_ok.
  - apply reachable_run. vm_compute. discriminate.
  - vm_compute. reflexivity.
  - constructor. vm_compute. reflexivity.
  - exact H.
Defined.

Lemma countdown_expires_witness :
  title (modal (dom (fire_n 1 15 demo_level3))) = title_times_up.
Proof.
  destruct (countdown_expires true demo_page demo_level3 1 15) as (_ & _ & H & _).
  - exact demo_page_ok.
  - apply reachable_run. vm_compute. discriminate.
  - vm_compute. reflexivity.
  - exact H.
Defined.

Lemma continue_transitions_witness :
  level (exec (dispatch Continue) demo_game_over) = 1%Z.
Proof.
  destruct (continue_transitions true demo_page demo_game_over) as (_ & H & _).
  - exact demo_page_ok.
  - apply reachable_run. vm_compute. discriminate.
  - vm_compute. reflexivity.
  - apply H. vm_compute. reflexivity.
Defined.

Lemma score_per_event_witness :
  (0 <= score demo_game_over <= score demo_world + 10 * Z.of_nat (List.length (to_level3 ++ pops 20)))%Z.
Proof.
  refine (score_per_event true demo_page (to_level3 ++ pops 20) demo_world demo_game_over _ _ _).
  - exact demo_page_ok.
  - exact (reach_start _ _).
  - vm_compute. reflexivity.
Defined.

Lemma hit_tick_commute_witness :
  exec (dispatch (Fire 1)) (exec (dispatch (ClickBalloon 0)) demo_level3) =
  exec (dispatch (ClickBalloon 0)) (exec (dispatch (Fire 1)) demo_level3).
Proof.
  refine (hit_tick_commute true demo_page demo_level3 0 1 15 demo_page_ok _ _ _ _ _).
  - apply reachable_run. vm_compute. discriminate.
  - apply Nat.ltb_lt. vm_compute. reflexivity.
  - apply Nat.leb_le. vm_compute. reflexivity.
  - vm_compute. reflexivity.
  - lia.
Defined.

Lemma world_well_formed_witness :
  iv_wf (timers demo_level3) /\
  exists c, level_config (level demo_level3) = Some c /\ area_ok c (dom demo_level3).
Proof.
  apply (world_well_formed true demo_page).
  - exact demo_page_ok.
  - apply reachable_run. vm_compute. discriminate.
Defined.

Lemma untimed_no_countdown_witness : iv_get (timers demo_world) 1 = None.
Proof.
  refine (untimed_no_countdown true demo_page demo_world (mkLevel 15 0 "near") _ _ _ _ 1).
  - exact demo_page_ok.
  - exact (reach_start _ _).
  - vm_compute. reflexivity.
  - reflexivity.
Defined.

Lemma level_always_defined_witness : (1 <= level demo_game_over <= 3)%Z.
Proof.
  destruct (level_always_defined true demo_page demo_game_over) as [H _].
  - exact demo_page_ok.
  - apply reachable_run. vm_compute. discriminate.
  - exact H.
Defined.
