(* ===== verification/Spec.v ===== *)
(** * Spec: the specification's state machine and the refinement

    Section 4 of the specification describes the game as a state machine
    with the states AwaitingInput, LevelClearedSummary, TimeUpSummary and
    GameOverSummary.  A hit removes a target and adds 10 points, and the
    last hit ends the level; a tick decrements the time left, and its
    expiry ends the level with "time's up"; dismissing a summary runs
    advance().  [Machine] writes that machine over abstract states
    [AState], for a given table of levels (the specification fixes
    levels 1 and 3 in its scenarios, not level 2).  [alpha] reads the
    abstract state off a world of [Session].  [session_refines_spec] shows
    that every step of the event loop from a reachable world is a step of
    the machine or leaves the abstract state unchanged, when the visible
    modal covers the play area.  Its consequence [reachable_in_spec] says
    every reachable world abstracts to a reachable state of the machine,
    and [spec_steps_realised] the converse: every transition the machine
    allows from there is taken by some event of the page. *)

From Stdlib Require Import ZArith QArith List String Bool Lia.
From S2P Require Import Prelude Text Config Dom Timer Game Session.
Import ListNotations.

Local Open Scope Z_scope.
Local Open Scope string_scope.

Inductive Phase : Type :=
| AwaitingInput
| LevelClearedSummary
| TimeUpSummary
| GameOverSummary.

(** The specification's SessionState: the phase, the current level, the
    score, the number of live targets and the time left ([None] for an
    untimed level or no countdown). *)
Record AState : Type := mkA {
  phase : Phase;
  cur_level : Z;
  a_score : Z;
  targets : nat;
  remaining : option Z
}.

Section Machine.
(** The level table: target count and time limit (0 = untimed). *)
Variable table : Z -> option (nat * Z).

(** startLevel(l) with the score [sc]. *)
Definition start (l sc : Z) : AState :=
  match table l with
  | Some (n, lim) => mkA AwaitingInput l sc n (if Z.ltb 0 lim then Some lim else None)
  | None => mkA AwaitingInput l sc 0 None
  end.

(** handleTargetHit on a live target: 10 points, one target less, and
    endLevel(false) when none is left. *)
Definition after_hit (s : AState) : AState :=
  match pred (targets s) with
  | O => mkA (if Z.ltb (cur_level s) 3 then LevelClearedSummary else GameOverSummary)
             (cur_level s) (a_score s + 10) 0 None
  | n => mkA AwaitingInput (cur_level s) (a_score s + 10) n (remaining s)
  end.

(** A countdown tick: endLevel(true) when the time reaches 0. *)
Definition after_tick (s : AState) (t : Z) : AState :=
  if Z.leb (t - 1) 0 then mkA TimeUpSummary (cur_level s) (a_score s) (targets s) None
  else mkA AwaitingInput (cur_level s) (a_score s) (targets s) (Some (t - 1)).

(** advance(): the next level, the same level, or level 1 with score 0. *)
Definition advance (s : AState) : AState :=
  match phase s with
  | LevelClearedSummary => start (cur_level s + 1) (a_score s)
  | TimeUpSummary => start (cur_level s) (a_score s)
  | GameOverSummary => start 1 0
  | AwaitingInput => s
  end.

Inductive astep : AState -> AState -> Prop :=
| astep_hit s : phase s = AwaitingInput -> (0 < targets s)%nat -> astep s (after_hit s)
| astep_tick s t : phase s = AwaitingInput -> remaining s = Some t -> astep s (after_tick s t)
| astep_advance s : phase s <> AwaitingInput -> astep s (advance s).

Definition a_init : AState := start 1 0.

(** A hit on a target left behind a shown summary, when the page lets the
    click through: 10 points and one target less as [after_hit], but the
    summary stays. *)
Definition hit_behind (s : AState) : AState :=
  match pred (targets s) with
  | O => mkA (if Z.ltb (cur_level s) 3 then LevelClearedSummary else GameOverSummary)
             (cur_level s) (a_score s + 10) 0 None
  | n => mkA (phase s) (cur_level s) (a_score s + 10) n (remaining s)
  end.

(** The machine opened to such hits: its steps, plus a hit behind the
    "TIME'S UP" summary (the only summary that leaves targets). *)
Inductive astep_open : AState -> AState -> Prop :=
| open_spec s s' : astep s s' -> astep_open s s'
| open_hit_behind s :
    phase s = TimeUpSummary -> (0 < targets s)%nat -> astep_open s (hit_behind s).

Lemma hit_behind_awaiting (s : AState) : phase s = AwaitingInput -> hit_behind s = after_hit s.
Proof. intros Hp. unfold hit_behind, after_hit. rewrite Hp. reflexivity. Qed.

(** Every step of the machine starts or ends waiting for input. *)
Lemma astep_phase (s s' : AState) :
  astep s s' -> phase s = AwaitingInput \/ phase s' = AwaitingInput.
Proof.
  destruct 1 as [s Hp _ | s t Hp _ | s Hp]; [left; exact Hp .. | right].
  unfold advance, start. destruct (phase s); [congruence| | |];
    destruct (table _) as [[n lim]|]; reflexivity.
Qed.

(** A hit behind a summary adds 10 points and leaves a summary shown. *)
Lemma hit_behind_score (s : AState) : a_score (hit_behind s) = (a_score s + 10)%Z.
Proof. unfold hit_behind. now destruct (pred (targets s)). Qed.

Lemma hit_behind_shown (s : AState) :
  phase s <> AwaitingInput -> phase (hit_behind s) <> AwaitingInput.
Proof.
  intros Hp. unfold hit_behind. destruct (pred (targets s)); [|exact Hp].
  cbn [phase]. destruct (Z.ltb (cur_level s) 3); discriminate.
Qed.

Inductive areach : AState -> Prop :=
| areach_init : areach a_init
| areach_step s s' : areach s -> astep s s' -> areach s'.
(** The machine's invariant: the level stays in the table's range
    1..3, the score is a non-negative multiple of 10 (points come ten at a
    time), a completed level's summary has no target and no clock left,
    and "level complete" is shown only below the last level. *)
Definition a_inv (s : AState) : Prop :=
  (1 <= cur_level s <= 3)%Z /\ (0 <= a_score s)%Z /\ (a_score s mod 10 = 0)%Z /\
  (phase s = LevelClearedSummary \/ phase s = GameOverSummary ->
     targets s = O /\ remaining s = None) /\
  (phase s = LevelClearedSummary -> (cur_level s < 3)%Z) /\
  (phase s = AwaitingInput -> forall n lim, table (cur_level s) = Some (n, lim) ->
     (0 < lim)%Z -> remaining s <> None).

Lemma start_fields (l sc : Z) :
  phase (start l sc) = AwaitingInput /\ cur_level (start l sc) = l /\ a_score (start l sc) = sc /\
  (forall n lim, table l = Some (n, lim) -> (0 < lim)%Z -> remaining (start l sc) <> None).
Proof.
  unfold start. destruct (table l) as [[n lim]|]; repeat split; intros n' lim' E Hp; [|discriminate].
  injection E as <- <-. cbn. now replace (Z.ltb 0 lim) with true by (symmetry; apply Z.ltb_lt; lia).
Qed.

Lemma a_inv_start (l sc : Z) :
  (1 <= l <= 3)%Z -> (0 <= sc)%Z -> (sc mod 10 = 0)%Z -> a_inv (start l sc).
Proof.
  intros Hl H0 Hm. destruct (start_fields l sc) as (Hp & Hl' & Hs & Hr).
  unfold a_inv. rewrite Hp, Hl', Hs. intuition (discriminate || eauto).
Qed.

Lemma add_10_mod (x : Z) : (x mod 10 = 0 -> (x + 10) mod 10 = 0)%Z.
Proof. intros. Z.to_euclidean_division_equations. lia. Qed.

Lemma a_inv_step (s s' : AState) : a_inv s -> astep s s' -> a_inv s'.
Proof.
  intros (Hl & H0 & Hm & Hend & Hlc & Hrun) Hst. destruct Hst as [s Hp _ | s t Hp _ | s Hp].
  - unfold after_hit. destruct (pred (targets s)) as [|n].
    + unfold a_inv; cbn. destruct (Z.ltb_spec (cur_level s) 3); intuition (discriminate || lia || now apply add_10_mod).
    + unfold a_inv; cbn. intuition (discriminate || lia || now apply add_10_mod).
  - unfold after_tick. destruct (Z.leb (t - 1) 0); unfold a_inv; cbn; intuition (discriminate || lia || now apply add_10_mod).
  - unfold advance in *. destruct (phase s) eqn:E; [congruence| | |].
    + apply a_inv_start; try assumption. specialize (Hlc eq_refl). lia.
    + apply a_inv_start; assumption.
    + apply a_inv_start; lia || reflexivity.
Qed.

Lemma a_inv_reach (s : AState) : areach s -> a_inv s.
Proof.
  induction 1 as [|s s' _ IH Hst]; [apply a_inv_start; lia || reflexivity|].
  exact (a_inv_step s s' IH Hst).
Qed.
End Machine.

(** ** The abstraction of a world *)

(** The code's table, as the specification's. *)
Definition code_table (l : Z) : option (nat * Z) :=
  option_map (fun c => (Z.to_nat (numBalloons c), time c)) (level_config l).

(** The phase, read off the modal as [nextLevel] reads it: its visibility
    and its title. *)
Definition phase_of (m : Modal) : Phase :=
  if hidden m then AwaitingInput
  else if String.eqb (title m) title_great_job then LevelClearedSummary
  else if String.eqb (title m) title_times_up then TimeUpSummary
  else GameOverSummary.

Section Refinement.
Context {T : Type} `{IS : IntervalService T} `{IL : !IntervalLaws T}.

(** The time left is the [timeLeft] of the interval [timer] names, when
    it is live. *)
Definition time_left (w : World T) : option Z :=
  match timer w with Some i => iv_get (timers w) i | None => None end.

Definition alpha (w : World T) : AState :=
  mkA (phase_of (modal (dom w))) (level w) (score w) (List.length (area (dom w))) (time_left w).

(** ** How each handler moves the abstract state *)

Lemma phase_of_hidden (m : Modal) : hidden m = true -> phase_of m = AwaitingInput.
Proof. intros H. unfold phase_of. now rewrite H. Qed.

Lemma phase_of_shown (m : Modal) : hidden m = false -> phase_of m <> AwaitingInput.
Proof.
  intros H. unfold phase_of. rewrite H.
  destruct (String.eqb _ title_great_job); [|destruct (String.eqb _ title_times_up)]; discriminate.
Qed.

(** The phase of the summary [endLevel] shows. *)
Definition end_phase (b : bool) (lvl : Z) : Phase :=
  if b then TimeUpSummary else if Z.ltb lvl 3 then LevelClearedSummary else GameOverSummary.

Lemma alpha_endLevel (b : bool) (w : World T) :
  (forall j, iv_get (iv_clear (timer w) (timers w)) j = None) ->
  alpha (endLevel_world b w) =
    mkA (end_phase b (level w)) (level w) (score w) (List.length (area (dom w))) None.
Proof.
  intros Hnone. unfold alpha, endLevel_world, time_left. world_simpl. f_equal.
  - unfold phase_of, end_phase, end_title. cbn [hidden title].
    destruct b; [reflexivity|]. destruct (Z.ltb (level w) 3); reflexivity.
  - destruct (timer w) as [i|] eqn:Ht; [apply Hnone | reflexivity].
Qed.

(** [startTimer]: the time left is the level's limit on a timed level,
    and there is none on an untimed one. *)
Lemma time_left_timer_world (c : LevelConfig) (w : World T) :
  iv_wf (timers w) -> (forall j, iv_get (iv_clear (timer w) (timers w)) j = None) ->
  time_left (timer_world c w) = if Z.ltb 0 (time c) then Some (time c) else None.
Proof.
  intros Hwf Hnone. pose proof (iv_wf_clear (timer w) _ Hwf) as Hwf'.
  unfold timer_world, time_left. destruct (Z.ltb 0 (time c)).
  - pose proof (iv_get_set (time c) _ (fst (iv_set (time c) (iv_clear (timer w) (timers w)))) Hwf')
      as Hgs.
    world_simpl. destruct (iv_set (time c) (iv_clear (timer w) (timers w))) as [id ts].
    cbn in *. now rewrite Hgs, Nat.eqb_refl.
  - world_simpl. destruct (timer w) as [i|] eqn:Ht; [apply Hnone | reflexivity].
Qed.

Lemma alpha_start (c : LevelConfig) (w : World T) :
  level_config (level w) = Some c -> hidden (modal (dom w)) = true ->
  iv_wf (timers w) -> live_is_timer w -> (forall k, 0 <= draw (rng (dom w)) k < 1)%Q ->
  alpha (start_world c w) = start code_table (level w) (score w).
Proof.
  intros Hc Hh Hwf Hlive Hdr.
  destruct (start_world_spec c w Hwf Hlive Hdr) as (Hs & Hl & Hm & _ & _ & _ & Hlen & _).
  unfold alpha, start, code_table. rewrite Hc, Hs, Hl, Hm, Hlen, phase_of_hidden by exact Hh.
  cbn [option_map]. f_equal. unfold start_world.
  apply time_left_timer_world; world_simpl; eauto with js.
Qed.
(** A pop, from any world where [Inv] holds, summary shown or not. *)
Lemma alpha_pop_any (w : World T) (b : Balloon) (au : Audio) :
  Inv w -> In b (area (dom w)) -> alpha (pop_world b au w) = hit_behind (alpha w).
Proof.
  intros HI Hin. pose proof (hit_count w b au HI Hin) as Hcnt.
  unfold pop_world. rewrite Hcnt. unfold hit_behind. cbn [alpha targets cur_level a_score remaining phase].
  destruct (pred (List.length (area (dom w)))) as [|n] eqn:Hp; cbn [Nat.eqb].
  - rewrite alpha_endLevel.
    + unfold count_balloons in Hcnt. rewrite Hcnt. unfold hit_world. world_simpl. reflexivity.
    + unfold hit_world. world_simpl. eauto with js.
  - unfold count_balloons in Hcnt. unfold alpha, time_left. rewrite Hcnt.
    unfold hit_world. world_simpl. reflexivity.
Qed.

Lemma alpha_pop (w : World T) (b : Balloon) (au : Audio) :
  Inv w -> hidden (modal (dom w)) = true -> In b (area (dom w)) -> sound (dom w) = Some au ->
  alpha (pop_world b au w) = after_hit (alpha w).
Proof.
  intros HI Hh Hin _. rewrite (alpha_pop_any w b au HI Hin).
  apply hit_behind_awaiting. exact (phase_of_hidden _ Hh).
Qed.
Lemma alpha_tick (w : World T) (id : nat) (t : Z) :
  Inv w -> iv_get (timers w) id = Some t ->
  remaining (alpha w) = Some t /\ alpha (countdown_world id t w) = after_tick (alpha w) t.
Proof.
  intros HI Hg. destruct (inv_timer w HI id t Hg) as (Hid & Hh & _).
  pose proof (timer_ok_live w (inv_timer w HI)) as Hlive.
  assert (Hne : iv_get (timers w) id <> None) by congruence.
  split; [unfold alpha, time_left; cbn [remaining]; now rewrite Hid|].
  unfold countdown_world, after_tick. cbn [alpha cur_level a_score targets].
  destruct (Z.leb (t - 1) 0).
  - rewrite alpha_endLevel; [unfold tick_world; world_simpl; reflexivity|].
    unfold tick_world. world_simpl. rewrite Hid. intros j. rewrite !iv_get_clear.
    destruct (Nat.eqb_spec id j) as [_|Hj]; [reflexivity|].
    destruct (iv_get (iv_put id (t - 1) (timers w)) j) as [v|] eqn:Hv; [|reflexivity].
    destruct (live_put_only w id (t - 1) j v Hlive Hid Hne Hv). congruence.
  - unfold alpha, time_left, tick_world. world_simpl.
    rewrite Hid, iv_get_put, Nat.eqb_refl by exact Hne. now rewrite phase_of_hidden.
Qed.
Lemma alpha_continue (w : World T) (c : LevelConfig) :
  Inv w -> hidden (modal (dom w)) = false -> level_config (level (continue_world w)) = Some c ->
  alpha (start_world c (continue_world w)) = advance code_table (alpha w).
Proof.
  intros HI Hh Hc. pose proof HI as [_ _ _ Hdr Hwf Htm Hsum _ _].
  destruct (continue_world_spec w HI Hh) as (_ & Hh' & _ & _ & Hr & Hts & _ & _).
  rewrite (alpha_start c (continue_world w) Hc Hh'); rewrite ?Hts, ?Hr; try assumption;
    [|intros j t Hg; rewrite Hts, (hidden_false_no_live w Htm Hh j) in Hg; discriminate].
  destruct (continue_world_cases w HI Hh) as (Hgj & Hgo & Htu).
  unfold advance, alpha, phase_of. cbn [phase cur_level a_score]. rewrite Hh.
  destruct (Hsum Hh) as [(Ht & _) | [(Ht & _) | (Ht & _)]]; rewrite Ht.
  - destruct (Hgj Ht) as [-> ->]. reflexivity.
  - destruct (Hgo Ht) as [-> ->]. reflexivity.
  - destruct (Htu Ht) as [-> ->]. reflexivity.
Qed.
Lemma alpha_awaiting (w : World T) :
  phase (alpha w) = AwaitingInput -> hidden (modal (dom w)) = true.
Proof.
  cbn [alpha phase]. unfold phase_of. destruct (hidden (modal (dom w))); [reflexivity|].
  destruct (String.eqb _ title_great_job); [discriminate|].
  destruct (String.eqb _ title_times_up); discriminate.
Qed.

Lemma alpha_timer (w : World T) (t : Z) :
  remaining (alpha w) = Some t -> exists id, timer w = Some id /\ iv_get (timers w) id = Some t.
Proof.
  cbn [alpha remaining]. unfold time_left. destruct (timer w) as [id|]; [|discriminate].
  intros H. exists id. auto.
Qed.

(** The converse of [inv_refines]: every transition the machine allows
    from the abstraction of a world where [Inv] holds is taken by an event
    the page delivers, a click on the first balloon for a hit, a firing of
    the interval [timer] names for a tick, a click on the summary's button
    for advance(). *)
Lemma inv_realises (w : World T) (s' : AState) :
  Inv w -> astep code_table (alpha w) s' -> exists e w', step true w e w' /\ alpha w' = s'.
Proof.
  intros HI Ha. inversion Ha as [s Hph Hn | s t Hph Hrem | s Hph]; subst.
  - pose proof (alpha_awaiting w Hph) as Hh. cbn [alpha targets] in Hn.
    destruct (area (dom w)) as [|b bs] eqn:Ha0; [cbn in Hn; lia|].
    destruct (exec_click w 0 b HI ltac:(now rewrite Ha0)) as (au & Hau & He).
    exists (ClickBalloon 0), (pop_world b au w). split.
    + rewrite <- He. apply step_run. unfold enabled, area_clickable. now rewrite Ha0, Hh.
    + apply (alpha_pop w b au HI Hh); [rewrite Ha0; now left | exact Hau].
  - destruct (alpha_timer w t Hrem) as (id & _ & Hg).
    exists (Fire id), (countdown_world id t w). split.
    + rewrite <- (exec_fire w id t HI Hg). apply step_run. cbn [enabled]. now rewrite Hg.
    + exact (proj2 (alpha_tick w id t HI Hg)).
  - assert (Hh : hidden (modal (dom w)) = false)
      by (destruct (hidden (modal (dom w))) eqn:Hh; [destruct (Hph (phase_of_hidden _ Hh))|reflexivity]).
    destruct (continue_eq_start w HI Hh) as (c & Hc & He).
    exists Continue, (start_world c (continue_world w)). split.
    + rewrite <- He. apply step_run. cbn [enabled]. now rewrite Hh.
    + exact (alpha_continue w c HI Hh Hc).
Qed.

(** One step of the event loop, from a world where [Inv] holds, when
    the visible modal covers the play area. *)
Lemma inv_refines (w w' : World T) (e : Event) :
  Inv w -> step true w e w' ->
  astep code_table (alpha w) (alpha w') \/ alpha w' = alpha w.
Proof.
  intros HI Hst. pose proof HI as [_ _ _ _ _ Htm _ _ _].
  destruct (step_cases true w w' e HI Hst)
    as [-> | [(b & au & Hin & Hau & Hh & ->) | [(Hh & c & Hc & ->) | (id & t & Hg & ->)]]].
  - right. reflexivity.
  - left. specialize (Hh eq_refl). rewrite (alpha_pop w b au HI Hh Hin Hau).
    apply astep_hit; [exact (phase_of_hidden _ Hh)|]. cbn [alpha targets].
    destruct (area (dom w)); [destruct Hin | cbn; lia].
  - left. rewrite (alpha_continue w c HI Hh Hc). apply astep_advance. exact (phase_of_shown _ Hh).
  - destruct (Htm id t Hg) as (_ & Hh & _). destruct (alpha_tick w id t HI Hg) as [Hrem ->].
    left. apply astep_tick; [exact (phase_of_hidden _ Hh)|exact Hrem].
Qed.

(** A summary shown over balloons left is "TIME'S UP". *)
Lemma shown_with_targets (w : World T) (b : Balloon) :
  Inv w -> hidden (modal (dom w)) = false -> In b (area (dom w)) ->
  phase_of (modal (dom w)) = TimeUpSummary.
Proof.
  intros HI Hh Hin. unfold phase_of. rewrite Hh.
  destruct (inv_summary w HI Hh) as [(_ & Ha & _) | [(_ & Ha & _) | (Ht & _)]];
    [rewrite Ha in Hin; destruct Hin .. | rewrite Ht; reflexivity].
Qed.

(** One step of the event loop, whatever the page lets through, is a
    step of the opened machine or changes nothing abstract. *)
Lemma inv_refines_open (overlay : bool) (w w' : World T) (e : Event) :
  Inv w -> step overlay w e w' ->
  astep_open code_table (alpha w) (alpha w') \/ alpha w' = alpha w.
Proof.
  intros HI Hst. pose proof HI as [_ _ _ _ _ Htm _ _ _].
  destruct (step_cases overlay w w' e HI Hst)
    as [-> | [(b & au & Hin & Hau & _ & ->) | [(Hh & c & Hc & ->) | (id & t & Hg & ->)]]].
  - right. reflexivity.
  - left. rewrite (alpha_pop_any w b au HI Hin).
    assert (Hn : (0 < targets (alpha w))%nat)
      by (cbn [alpha targets]; destruct (area (dom w)); [destruct Hin | cbn; lia]).
    destruct (hidden (modal (dom w))) eqn:Hh.
    + rewrite hit_behind_awaiting by exact (phase_of_hidden _ Hh).
      apply open_spec, astep_hit; [exact (phase_of_hidden _ Hh)|exact Hn].
    + apply open_hit_behind; [exact (shown_with_targets w b HI Hh Hin)|exact Hn].
  - left. rewrite (alpha_continue w c HI Hh Hc).
    apply open_spec, astep_advance. exact (phase_of_shown _ Hh).
  - destruct (Htm id t Hg) as (_ & Hh & _). destruct (alpha_tick w id t HI Hg) as [Hrem ->].
    left. apply open_spec, astep_tick; [exact (phase_of_hidden _ Hh)|exact Hrem].
Qed.

(** The script once loaded is the machine's initial state. *)
Lemma alpha_main (d : Dom) : page_ok d -> alpha (exec main (initial_world d)) = a_init code_table.
Proof.
  intros Hp. pose proof Hp as [Hh _ _ Hdr].
  destruct (main_start d Hp) as (w0 & -> & Hl & Hsc & Hts & Htm & Hm & _ & Hd0 & _).
  unfold a_init. replace (start code_table 1 0) with (start code_table (level w0) (score w0))
    by now rewrite Hl, Hsc.
  apply alpha_start; [now rewrite Hl | now rewrite Hm | rewrite Hts; apply iv_wf_empty | |
    now rewrite Hd0].
  intros j t Hg. rewrite Hts, iv_get_empty in Hg. discriminate.
Qed.

(** C1: refinement, step by step.  When the visible modal covers the
    play area, every event the page can deliver to a reachable world
    either is one transition of the specification's state machine
    (a hit, a countdown tick, or advance() from a summary), between the
    abstractions of the worlds before and after, or leaves the abstract
    state unchanged (a click on the empty play area). *)
Theorem session_refines_spec (d : Dom) (w w' : World T) (e : Event) :
  page_ok d -> reachable true d w -> step true w e w' ->
  astep code_table (alpha w) (alpha w') \/ alpha w' = alpha w.
Proof.
  intros Hp Hr Hs. exact (inv_refines w w' e (inv_reachable true d w Hp Hr) Hs).
Qed.

Lemma alpha_reachable (d : Dom) (w : World T) :
  page_ok d -> reachable true d w -> areach code_table (alpha w).
Proof.
  intros Hp Hr. induction Hr as [|w e w' Hr IH Hs].
  - rewrite (alpha_main d Hp). apply areach_init.
  - destruct (inv_refines w w' e (inv_reachable true d w Hp Hr) Hs) as [Ha | ->];
      [exact (areach_step _ _ _ IH Ha) | exact IH].
Qed.

(** C2: refinement of whole runs.  The abstraction of every reachable
    world is a reachable state of the specification's state machine,
    starting from startLevel(1) with score 0: no sequence of clicks and
    timer firings takes the script outside the specified behaviour. *)
Theorem reachable_in_spec (d : Dom) (w : World T) :
  page_ok d -> reachable true d w -> areach code_table (alpha w).
Proof. exact (alpha_reachable d w). Qed.

(** C5: the converse of [session_refines_spec], so that with it the page
    and the specification's machine are bisimilar on reachable worlds:
    every transition the machine allows from the abstraction of a
    reachable world (a hit while targets are left, a countdown tick while
    a time is left, advance() from a summary) is taken by some event the
    page can deliver there, to a world whose abstraction is the
    machine's next state.  The code implements all of the specified
    behaviour, not only a part of it. *)
Theorem spec_steps_realised (d : Dom) (w : World T) (s' : AState) :
  page_ok d -> reachable true d w -> astep code_table (alpha w) s' ->
  exists e w', step true w e w' /\ alpha w' = s'.
Proof. intros Hp Hr. exact (inv_realises w s' (inv_reachable true d w Hp Hr)). Qed.

(** C14: the machine's invariant [a_inv], proved once on the
    specification's machine, holds of every reachable world through the
    refinement: [level] stays in 1..3, [score] is a non-negative multiple
    of 10, a "GREAT JOB" or "GAME OVER" summary leaves no balloon and no
    running countdown, "GREAT JOB" is shown only below level 3, and a
    timed level being played has a countdown. *)
Theorem spec_invariant_holds (d : Dom) (w : World T) :
  page_ok d -> reachable true d w -> a_inv code_table (alpha w).
Proof. intros Hp Hr. exact (a_inv_reach code_table _ (alpha_reachable d w Hp Hr)). Qed.
(** C16: what the overlay hides, exactly.  Whatever the page lets
    through, every event delivered to a reachable world is a step of the
    specification's machine opened by one rule, a hit on a balloon left
    behind the "TIME'S UP" summary ([hit_behind]), or changes nothing
    abstract.  With [overlay_breaks_refinement] this rule is the whole
    gap between the code and the specification. *)
Theorem session_refines_open_spec (overlay : bool) (d : Dom) (w w' : World T) (e : Event) :
  page_ok d -> reachable overlay d w -> step overlay w e w' ->
  astep_open code_table (alpha w) (alpha w') \/ alpha w' = alpha w.
Proof.
  intros Hp Hr Hs. exact (inv_refines_open overlay w w' e (inv_reachable overlay d w Hp Hr) Hs).
Qed.

(** C15: without the overlay the refinement fails, wherever a summary
    is shown over a balloon.  In every reachable world whose modal is
    shown and whose play area still holds an [i]-th balloon (only
    "TIME'S UP" leaves balloons), a page that does not cover the area
    delivers the click on it; the pop adds 10 points and leaves a summary
    shown, so the abstract state changes and no transition of the
    specification's machine leads there. *)
Theorem overlay_breaks_refinement (d : Dom) (w : World T) (i : nat) :
  page_ok d -> reachable false d w -> hidden (modal (dom w)) = false ->
  (i < List.length (area (dom w)))%nat ->
  step false w (ClickBalloon i) (exec (dispatch (ClickBalloon i)) w) /\
  ~ astep code_table (alpha w) (alpha (exec (dispatch (ClickBalloon i)) w)) /\
  alpha (exec (dispatch (ClickBalloon i)) w) <> alpha w.
Proof.
  intros Hp Hr Hh Hi. pose proof (inv_reachable false d w Hp Hr) as HI.
  destruct (nth_error (area (dom w)) i) as [b|] eqn:Hb; [|apply nth_error_None in Hb; lia].
  split; [apply step_run; unfold enabled, area_clickable;
          apply andb_true_intro; split; [now apply Nat.ltb_lt | reflexivity]|].
  destruct (exec_click w i b HI Hb) as (au & _ & ->).
  rewrite (alpha_pop_any w b au HI (nth_error_In _ _ Hb)).
  pose proof (phase_of_shown _ Hh) as Hph. split.
  - intros Ha. destruct (astep_phase code_table _ _ Ha) as [H|H];
      [exact (Hph H)|exact (hit_behind_shown (alpha w) Hph H)].
  - intros E. apply (f_equal a_score) in E. rewrite hit_behind_score in E. cbn [alpha a_score] in E. lia.
Qed.

End Refinement.

(** ** Witnesses, and the refinement without the overlay *)

Definition demo_time_up (overlay : bool) : World Intervals :=
  run_from overlay (to_level3 ++ repeat (Fire 1) 15).

Lemma session_refines_spec_witness :
  astep code_table (alpha demo_level3) (alpha (exec (dispatch (Fire 1)) demo_level3)) \/
  alpha (exec (dispatch (Fire 1)) demo_level3) = alpha demo_level3.
Proof.
  apply (session_refines_spec demo_page demo_level3 _ (Fire 1)).
  - exact demo_page_ok.
  - apply reachable_run. vm_compute. discriminate.
  - constructor. vm_compute. reflexivity.
Defined.

Lemma spec_invariant_holds_witness : a_inv code_table (alpha (demo_time_up true)).
Proof.
  apply (spec_invariant_holds demo_page).
  - exact demo_page_ok.
  - apply reachable_run. vm_compute. discriminate.
Defined.

Lemma session_refines_open_spec_witness :
  astep_open code_table (alpha (demo_time_up false))
    (alpha (exec (dispatch (ClickBalloon 0)) (demo_time_up false))) \/
  alpha (exec (dispatch (ClickBalloon 0)) (demo_time_up false)) = alpha (demo_time_up false).
Proof.
  refine (session_refines_open_spec false demo_page (demo_time_up false) _ (ClickBalloon 0)
            demo_page_ok _ _).
  - apply reachable_run. vm_compute. discriminate.
  - constructor. vm_compute. reflexivity.
Defined.

Lemma spec_steps_realised_witness :
  exists e w', step true demo_level3 e w' /\ alpha w' = after_hit (alpha demo_level3).
Proof.
  apply (spec_steps_realised demo_page).
  - exact demo_page_ok.
  - apply reachable_run. vm_compute. discriminate.
  - apply astep_hit; vm_compute; [reflexivity | lia].
Defined.

Lemma reachable_in_spec_witness : areach code_table (alpha (demo_time_up true)).
Proof.
  apply (reachable_in_spec demo_page).
  - exact demo_page_ok.
  - apply reachable_run. vm_compute. discriminate.
Defined.

Lemma overlay_breaks_refinement_witness :
  ~ astep code_table (alpha (demo_time_up false))
      (alpha (exec (dispatch (ClickBalloon 0)) (demo_time_up false))).
Proof.
  refine (proj1 (proj2 (overlay_breaks_refinement demo_page (demo_time_up false) 0
            demo_page_ok _ _ _))).
  - apply reachable_run. vm_compute. discriminate.
  - vm_compute. reflexivity.
  - vm_compute. lia.
Defined.
