(* ===== verification/Display.v ===== *)
(** * Display: what the page shows

    The script writes four texts: [#score-display] ([updateScore],
    line 29, and the reset of [nextLevel], line 129), [#timer-display]
    ([startTimer] and its countdown, lines 54, 57 and 64), and the
    summary's title and message ([endLevel], lines 97-117).  [Shown] is
    the invariant saying that these texts agree with the globals: the
    score text shows [score], or is still the markup's own text while no
    point has been scored; the timer text is "TIMER: --" during an
    untimed level and "TIMER: 0" under "TIME'S UP"; and, when the visible
    modal covers the play area, the summary's message is the one
    [endLevel] writes for the current level and score.  It holds in every
    reachable world, by rule induction next to [Session.Inv]. *)

From Stdlib Require Import ZArith QArith List String Bool Lia.
From S2P Require Import Prelude Text Config Dom Timer Game Session.
Import ListNotations.

Local Open Scope Z_scope.
Local Open Scope string_scope.

Section Display.
Context {T : Type} `{IS : IntervalService T} `{IL : !IntervalLaws T}.

(** [#score-display] shows [score], or the markup's text [d0] before the
    first point. *)
Definition score_shown (d0 : Dom) (w : World T) : Prop :=
  scoreText (dom w) = "POINTS: " ++ js_num (score w) \/
  (score w = 0 /\ scoreText (dom w) = scoreText d0).

Definition timer_shown (w : World T) : Prop :=
  (hidden (modal (dom w)) = true -> forall c, level_config (level w) = Some c ->
     time c = 0 -> timerText (dom w) = "TIMER: --") /\
  (hidden (modal (dom w)) = false -> title (modal (dom w)) = title_times_up ->
     timerText (dom w) = "TIMER: 0").

(** The summary's message, button and instructor texts, as [endLevel]
    writes them for the summary shown. *)
Definition summary_shown (w : World T) : Prop :=
  hidden (modal (dom w)) = false ->
  let b := String.eqb (title (modal (dom w))) title_times_up in
  message (modal (dom w)) = end_message b (level w) (score w) /\
  button (modal (dom w)) = end_button b (level w) /\
  instructor (modal (dom w)) = end_instructor b (level w) None.

Record Shown (overlay : bool) (d0 : Dom) (w : World T) : Prop := {
  sh_score : score_shown d0 w;
  sh_timer : timer_shown w;
  sh_message : overlay = true -> summary_shown w
}.

(** ** What each closed form writes *)

Lemma start_world_texts (c : LevelConfig) (w : World T) :
  scoreText (dom (start_world c w)) = scoreText (dom w) /\
  modal (dom (start_world c w)) = modal (dom w) /\
  level (start_world c w) = level w /\ score (start_world c w) = score w /\
  (time c = 0 -> timerText (dom (start_world c w)) = "TIMER: --").
Proof.
  unfold start_world, timer_world, gen_dom, clear_area. destruct (Z.ltb_spec 0 (time c)) as [Hc|Hc].
  - destruct (iv_set _ _). world_simpl. repeat (split; [reflexivity|]). lia.
  - world_simpl. repeat split.
Qed.

Lemma endLevel_texts (b : bool) (w : World T) :
  scoreText (dom (endLevel_world b w)) = scoreText (dom w) /\
  timerText (dom (endLevel_world b w)) = timerText (dom w) /\
  hidden (modal (dom (endLevel_world b w))) = false /\
  title (modal (dom (endLevel_world b w))) = end_title b (level w) /\
  message (modal (dom (endLevel_world b w))) = end_message b (level w) (score w) /\
  button (modal (dom (endLevel_world b w))) = end_button b (level w) /\
  instructor (modal (dom (endLevel_world b w))) =
    end_instructor b (level w) (instructor (modal (dom w))) /\
  level (endLevel_world b w) = level w /\ score (endLevel_world b w) = score w.
Proof. unfold endLevel_world. world_simpl. repeat split. Qed.

(** On the table's levels the instructor text does not depend on the
    previous one. *)
Lemma end_instructor_level (b : bool) (lvl : Z) (o : option string) :
  (1 <= lvl <= 3)%Z -> end_instructor b lvl o = end_instructor b lvl None.
Proof.
  intros Hl. unfold end_instructor. destruct b; [reflexivity|].
  assert (lvl = 1 \/ lvl = 2 \/ lvl = 3)%Z as [->|[->| ->]] by lia; reflexivity.
Qed.

Lemma end_title_times_up (b : bool) (lvl : Z) :
  String.eqb (end_title b lvl) title_times_up = b.
Proof. unfold end_title. destruct b; [reflexivity|]. now destruct (Z.ltb lvl 3). Qed.

(** Every summary [endLevel] shows on a level of the table satisfies
    [summary_shown]. *)
Lemma summary_endLevel (b : bool) (w : World T) :
  (1 <= level w <= 3)%Z -> summary_shown (endLevel_world b w).
Proof.
  intros Hl _. destruct (endLevel_texts b w) as (_ & _ & _ & Hti & Hme & Hbu & Hin & Hl' & Hso).
  cbv zeta. rewrite Hti, end_title_times_up, Hme, Hbu, Hin, Hl', Hso.
  rewrite (end_instructor_level b (level w) _ Hl). repeat split.
Qed.

Lemma hit_texts (b : Balloon) (au : Audio) (w : World T) :
  scoreText (dom (hit_world b au w)) = "POINTS: " ++ js_num (score (hit_world b au w)) /\
  timerText (dom (hit_world b au w)) = timerText (dom w) /\
  modal (dom (hit_world b au w)) = modal (dom w) /\ level (hit_world b au w) = level w.
Proof. unfold hit_world, remove_node. world_simpl. repeat split. Qed.

Lemma continue_score_shown (d0 : Dom) (w : World T) :
  score_shown d0 w -> score_shown d0 (continue_world w).
Proof.
  unfold continue_world. destruct (Z.eqb (level w) 3 && _); [intros _; left; reflexivity|].
  destruct (Z.ltb (level w) 3); world_simpl; exact id.
Qed.

(** ** [Shown] holds in every reachable world *)

Lemma shown_init (overlay : bool) (d : Dom) :
  page_ok d -> Shown overlay d (exec main (initial_world d)).
Proof.
  intros Hp. pose proof Hp as [Hh _ _ _].
  destruct (main_start d Hp) as (w0 & -> & Hl & Hsc & _ & _ & Hm & _ & _ & Hst).
  destruct (start_world_texts (mkLevel 15 0 "near") w0) as (Hs & Hmo & Hlv & Hso & Ht).
  split.
  - right. rewrite Hso, Hs. split; assumption.
  - split; intros Hh'; [|rewrite Hmo, Hm, Hh in Hh'; discriminate].
    intros c Hc _. rewrite Hlv, Hl, level_config_1 in Hc. injection Hc as <-. exact (Ht eq_refl).
  - intros _ Hh'. rewrite Hmo, Hm, Hh in Hh'. discriminate.
Qed.

Lemma shown_pop (overlay : bool) (d0 : Dom) (w : World T) (b : Balloon) (au : Audio) :
  (1 <= level w <= 3)%Z -> Shown overlay d0 w ->
  (overlay = true -> hidden (modal (dom w)) = true) -> Shown overlay d0 (pop_world b au w).
Proof.
  intros Hlev [Hs [Ht1 Ht2] Hm] Hov. destruct (hit_texts b au w) as (Hsc & Htt & Hmo & Hl).
  unfold pop_world. destruct (Nat.eqb _ 0).
  - destruct (endLevel_texts false (hit_world b au w))
      as (Hs' & Ht' & Hh' & Hti' & _ & _ & _ & Hl' & Hso').
    split.
    + left. rewrite Hs', Hso'. exact Hsc.
    + split; intros Hh; [congruence|]. rewrite Hti'. intros E.
      pose proof (end_title_times_up false (level (hit_world b au w))) as F.
      rewrite E in F. discriminate.
    + intros _. apply summary_endLevel. rewrite Hl. exact Hlev.
  - split.
    + left. exact Hsc.
    + unfold timer_shown. rewrite Htt, Hmo, Hl. split; assumption.
    + intros Ho Hh. rewrite Hmo, (Hov Ho) in Hh. discriminate.
Qed.

Lemma shown_fire (overlay : bool) (d0 : Dom) (w : World T) (id : nat) (t : Z) :
  Inv w -> Shown overlay d0 w -> iv_get (timers w) id = Some t ->
  Shown overlay d0 (countdown_world id t w).
Proof.
  intros HI [Hs _ _] Hg. destruct (inv_timer w HI id t Hg) as (_ & Hh & _ & c & Hc & Ht).
  unfold countdown_world. destruct (Z.leb_spec (t - 1) 0) as [Hexp|Hrun].
  - set (w1 := set_timers _ (tick_world id t w)).
    destruct (endLevel_texts true w1) as (Hs' & Ht' & Hh' & Hti' & _ & _ & _ & Hl' & Hso').
    split.
    + unfold score_shown. rewrite Hs', Hso'. exact Hs.
    + split; intros Hh0; [congruence|]. intros _. rewrite Ht'. subst w1. unfold tick_world.
      world_simpl. now replace (t - 1) with 0 by lia.
    + intros _. apply summary_endLevel. subst w1. unfold tick_world. world_simpl.
      eauto with js.
  - unfold tick_world. split; unfold score_shown, timer_shown, summary_shown; world_simpl.
    + exact Hs.
    + split; intros Hh0; [|congruence]. intros c' Hc'. rewrite Hc in Hc'.
      injection Hc' as <-. lia.
    + intros _ Hh0. congruence.
Qed.

Lemma shown_continue (overlay : bool) (d0 : Dom) (w : World T) (c : LevelConfig) :
  Inv w -> Shown overlay d0 w -> hidden (modal (dom w)) = false ->
  level_config (level (continue_world w)) = Some c ->
  Shown overlay d0 (start_world c (continue_world w)).
Proof.
  intros HI [Hs _ _] Hh Hc.
  destruct (continue_world_spec w HI Hh) as (_ & Hh' & _).
  destruct (start_world_texts c (continue_world w)) as (Hs' & Hmo & Hlv & Hso & Ht).
  pose proof (continue_score_shown d0 w Hs) as Hcs. split.
  - unfold score_shown in *. rewrite Hs', Hso. exact Hcs.
  - split; intros Hh0; rewrite Hmo in Hh0; [|congruence].
    intros c' Hc'. rewrite Hlv, Hc in Hc'. injection Hc' as <-. exact Ht.
  - intros _ Hh0. rewrite Hmo in Hh0. congruence.
Qed.
Lemma shown_step (overlay : bool) (d0 : Dom) (w w' : World T) (e : Event) :
  Inv w -> Shown overlay d0 w -> step overlay w e w' -> Shown overlay d0 w'.
Proof.
  intros HI HS Hst.
  destruct (step_cases overlay w w' e HI Hst)
    as [-> | [(b & au & Hin & Hau & Hh & ->) | [(Hh & c & Hc & ->) | (id & t & Hg & ->)]]].
  - exact HS.
  - exact (shown_pop overlay d0 w b au (inv_level w HI) HS Hh).
  - exact (shown_continue overlay d0 w c HI HS Hh Hc).
  - exact (shown_fire overlay d0 w id t HI HS Hg).
Qed.

Lemma shown_reachable (overlay : bool) (d : Dom) (w : World T) :
  page_ok d -> reachable overlay d w -> Shown overlay d w.
Proof.
  intros Hp Hr. induction Hr as [|w e w' Hr IH Hs]; [exact (shown_init overlay d Hp)|].
  exact (shown_step overlay d w w' e (inv_reachable overlay d w Hp Hr) IH Hs).
Qed.

(** C30: [#score-display] always shows the score: it reads
    "POINTS: <score>", or, before the first point of the session, it is
    still the markup's own text.  With [Text.parse_prefixed], the score
    can be read back from the page. *)
Theorem score_display (overlay : bool) (d : Dom) (w : World T) :
  page_ok d -> reachable overlay d w -> score_shown d w.
Proof. intros Hp Hr. exact (sh_score _ _ _ (shown_reachable overlay d w Hp Hr)). Qed.

(** C31: [#timer-display] reads "TIMER: --" while an untimed level is
    played, and "TIMER: 0" while the "TIME'S UP" summary is shown. *)
Theorem timer_display (overlay : bool) (d : Dom) (w : World T) :
  page_ok d -> reachable overlay d w -> timer_shown w.
Proof. intros Hp Hr. exact (sh_timer _ _ _ (shown_reachable overlay d w Hp Hr)). Qed.

(** C32: when the visible modal covers the play area, a shown summary's
    message, button and instructor texts are the ones [endLevel] writes
    for the current level and score: "You missed some balloons! Score:
    <score>." and "Try Again?" under "TIME'S UP", "Level <l> complete!
    ..." and "Start Level <l+1>" under "GREAT JOB", "Final Score:
    <score>! You win the <prize>!" and "Play Again?" under "GAME OVER". *)
Theorem summary_texts (d : Dom) (w : World T) :
  page_ok d -> reachable true d w -> summary_shown w.
Proof. intros Hp Hr. exact (sh_message _ _ _ (shown_reachable true d w Hp Hr) eq_refl). Qed.
(** The "TIME'S UP" message determines the score it shows. *)
Lemma time_up_message_inj (l sc sc' : Z) : end_message true l sc = end_message true l sc' -> sc = sc'.
Proof.
  unfold end_message. cbv beta iota. intros E.
  apply (f_equal (strip_prefix "You missed some balloons! Score: ")) in E.
  rewrite !strip_prefix_app in E. injection E as E.
  exact (js_num_inj _ _ (append_cancel_r _ _ _ E)).
Qed.

(** C33: without the overlay the "TIME'S UP" message goes stale.  In
    every reachable world where a page that does not cover the play area
    shows a summary whose message is up to date over two balloons or more,
    the click on any of them is delivered; the pop adds 10 points to
    [score] and to the score text, keeps the summary shown, and leaves
    its message as it was, so that the message no longer shows the
    score. *)
Theorem stale_message_without_overlay (d : Dom) (w : World T) (i : nat) :
  page_ok d -> reachable false d w -> hidden (modal (dom w)) = false ->
  (i < List.length (area (dom w)))%nat -> (2 <= List.length (area (dom w)))%nat ->
  summary_shown w ->
  step false w (ClickBalloon i) (exec (dispatch (ClickBalloon i)) w) /\
  hidden (modal (dom (exec (dispatch (ClickBalloon i)) w))) = false /\
  message (modal (dom (exec (dispatch (ClickBalloon i)) w))) = message (modal (dom w)) /\
  score (exec (dispatch (ClickBalloon i)) w) = score w + 10 /\
  ~ summary_shown (exec (dispatch (ClickBalloon i)) w).
Proof.
  intros Hp Hr Hh Hi H2 Hs. pose proof (inv_reachable false d w Hp Hr) as HI.
  destruct (nth_error (area (dom w)) i) as [b|] eqn:Hb; [|apply nth_error_None in Hb; lia].
  split; [apply step_run; unfold enabled, area_clickable;
          apply andb_true_intro; split; [now apply Nat.ltb_lt | reflexivity]|].
  assert (Ht : title (modal (dom w)) = title_times_up).
  { destruct (inv_summary w HI Hh) as [(_ & Ha & _) | [(_ & Ha & _) | (Ht & _)]];
      [rewrite Ha in Hi; cbn in Hi; lia .. | exact Ht]. }
  destruct (exec_click w i b HI Hb) as (au & _ & ->). unfold pop_world.
  rewrite (hit_count w b au HI (nth_error_In _ _ Hb)).
  destruct (List.length (area (dom w))) as [|[|n]]; [lia|lia|cbn [pred Nat.eqb]].
  specialize (Hs Hh). unfold summary_shown. unfold hit_world, remove_node. world_simpl.
  split; [exact Hh|]. split; [reflexivity|]. split; [reflexivity|].
  intros Hs'. destruct (Hs' Hh) as [Hm' _]. destruct Hs as [Hm _].
  rewrite Ht in Hm, Hm'. cbn [String.eqb] in Hm, Hm'. rewrite Hm in Hm'.
  replace (String.eqb title_times_up title_times_up) with true in Hm' by (symmetry; apply String.eqb_refl).
  apply time_up_message_inj in Hm'. lia.
Qed.

End Display.

(** ** Witnesses, and a stale message without the overlay *)

Lemma score_display_witness : score_shown demo_page demo_level3.
Proof.
  apply (score_display true).
  - exact demo_page_ok.
  - apply reachable_run. vm_compute. discriminate.
Defined.

Definition demo_time_up_pop : World Intervals :=
  run_from false (to_level3 ++ repeat (Fire 1) 15 ++ [ClickBalloon 0]).

Lemma timer_display_witness :
  timerText (dom demo_time_up_pop) = "TIMER: 0".
Proof.
  destruct (timer_display false demo_page demo_time_up_pop) as [_ H].
  - exact demo_page_ok.
  - apply reachable_run. vm_compute. discriminate.
  - apply H; vm_compute; reflexivity.
Defined.

Lemma summary_texts_witness : summary_shown (run_from true (to_level3 ++ pops 20)).
Proof.
  apply (summary_texts demo_page).
  - exact demo_page_ok.
  - apply reachable_run. vm_compute. discriminate.
Defined.

(** Level 3's countdown has run out, on a page without the overlay. *)
Definition demo_expired : World Intervals := run_from false (to_level3 ++ repeat (Fire 1) 15).

Lemma stale_message_without_overlay_witness :
  ~ summary_shown (exec (dispatch (ClickBalloon 0)) demo_expired).
Proof.
  refine (proj2 (proj2 (proj2 (proj2 (stale_message_without_overlay demo_page
            demo_expired 0 demo_page_ok _ _ _ _ _))))).
  - apply reachable_run. vm_compute. discriminate.
  - vm_compute. reflexivity.
  - vm_compute. lia.
  - vm_compute. lia.
  - intros _. vm_compute. repeat split.
Defined.
