(* ===== verification/Progress.v ===== *)
(** * Progress: the game can always be played to its end

    While a level is played ([hidden] modal) the play area is never
    empty ([playing_ok], an invariant of reachable worlds next to
    [Session.Inv]).  Popping the balloons one by one, each click enabled
    when it arrives, ends the level with the summary [endLevel(false)]
    shows ([pop_all]), whatever the countdown has left.  Going on with
    the summary's button and playing each level the same way reaches the
    "GAME OVER" summary from every reachable world, in at most three
    levels ([game_over_reachable]).  Retrying level 3 again and again
    ([retry_cycle], [grind]) raises the score without bound
    ([score_unbounded]). *)

From Stdlib Require Import ZArith QArith List String Bool Lia.
From S2P Require Import Prelude Text Config Dom Timer Game Session Spec Display.
Import ListNotations.

Local Open Scope Z_scope.
Local Open Scope string_scope.

Section Progress.
Context {T : Type} `{IS : IntervalService T} `{IL : !IntervalLaws T}.

(** A level being played has a balloon left. *)
Definition playing_ok (w : World T) : Prop :=
  hidden (modal (dom w)) = true -> area (dom w) <> [].

Lemma run_app (overlay : bool) (es1 es2 : list Event) (w : World T) :
  run overlay (es1 ++ es2) w =
    match run overlay es1 w with Some w1 => run overlay es2 w1 | None => None end.
Proof.
  revert w. induction es1 as [|e es1 IH]; intros w; cbn; [reflexivity|].
  destruct (enabled overlay w e); [apply IH|reflexivity].
Qed.

Lemma start_world_length (c : LevelConfig) (w : World T) :
  List.length (area (dom (start_world c w))) = Z.to_nat (numBalloons c).
Proof.
  unfold start_world, timer_world, gen_dom, clear_area.
  destruct (Z.ltb 0 (time c)); [destruct (iv_set _ _)|]; world_simpl; apply new_balloons_length.
Qed.

Lemma start_playing (c : LevelConfig) (w : World T) :
  level_config (level w) = Some c -> playing_ok (start_world c w).
Proof.
  intros Hc _ Har. pose proof (start_world_length c w) as Hl.
  pose proof (level_config_bounds _ _ Hc) as (_ & Hn & _).
  rewrite Har in Hl. cbn in Hl. lia.
Qed.

Lemma playing_step (overlay : bool) (w w' : World T) (e : Event) :
  Inv w -> playing_ok w -> step overlay w e w' -> playing_ok w'.
Proof.
  intros HI Hp Hst.
  destruct (step_cases overlay w w' e HI Hst)
    as [-> | [(b & au & Hin & Hau & Hh & ->) | [(Hh & c & Hc & ->) | (id & t & Hg & ->)]]].
  - exact Hp.
  - unfold pop_world. destruct (Nat.eqb_spec (count_balloons (dom (hit_world b au w))) 0) as [H0|H0].
    + unfold endLevel_world. intros Hh'. world_simpl. discriminate.
    + intros _ Har. apply H0. unfold count_balloons. now rewrite Har.
  - exact (start_playing c (continue_world w) Hc).
  - unfold countdown_world. destruct (Z.leb (t - 1) 0).
    + unfold endLevel_world. intros Hh'. world_simpl. discriminate.
    + unfold playing_ok, tick_world. world_simpl. exact Hp.
Qed.

Lemma playing_reachable (overlay : bool) (d : Dom) (w : World T) :
  page_ok d -> reachable overlay d w -> playing_ok w.
Proof.
  intros Hp Hr. induction Hr as [|w e w' Hr IH Hs].
  - destruct (main_start d Hp) as (w0 & -> & Hl & _). apply start_playing. now rewrite Hl.
  - exact (playing_step overlay w w' e (inv_reachable overlay d w Hp Hr) IH Hs).
Qed.
(** ** The player's strategy *)

(** Clear the level: click the first balloon as many times as there are
    balloons. *)
Definition clear_level (w : World T) : list Event := pops (List.length (area (dom w))).

(** Play to the end of the game, for at most [k] rounds: clear the level
    being played, or press the summary's button unless it is "GAME
    OVER". *)
Fixpoint play (overlay : bool) (k : nat) (w : World T) : list Event :=
  match k with
  | O => []
  | S k' =>
      if hidden (modal (dom w)) then
        match run overlay (clear_level w) w with
        | Some w1 => clear_level w ++ play overlay k' w1
        | None => clear_level w
        end
      else if String.eqb (title (modal (dom w))) title_game_over then []
      else Continue :: play overlay k' (exec (dispatch Continue) w)
  end.

(** The rounds [play] needs: two per level left to play (its balloons,
    then the button), one less on the last level. *)
Definition rounds (w : World T) : nat :=
  if hidden (modal (dom w)) then 2 * Z.to_nat (3 - level w) + 1
  else if String.eqb (title (modal (dom w))) title_game_over then 0
  else 2 * Z.to_nat (3 - level (continue_world w)) + 2.

(** Popping the [S n] balloons of a level being played, always the first
    one, ends the level with the summary of [endLevel(false)]. *)
Lemma clickable_hidden (overlay : bool) (w : World T) :
  hidden (modal (dom w)) = true -> area_clickable overlay w = true.
Proof. intros Hh. unfold area_clickable. rewrite Hh. apply orb_true_r. Qed.

Lemma pop_all (overlay : bool) (n : nat) : forall w : World T,
  Inv w -> area_clickable overlay w = true -> List.length (area (dom w)) = S n ->
  exists w', run overlay (pops (S n)) w = Some w' /\ Inv w' /\
    hidden (modal (dom w')) = false /\ title (modal (dom w')) = end_title false (level w) /\
    level w' = level w /\ score w' = score w + 10 * Z.of_nat (S n).
Proof.
  induction n as [|n IH]; intros w HI Hh Hlen;
    destruct (area (dom w)) as [|b bs] eqn:Ha; try discriminate;
    destruct (exec_click w 0 b HI) as (au & _ & Hex); try (rewrite Ha; reflexivity);
    assert (He : enabled overlay w (ClickBalloon 0) = true)
      by (unfold enabled; rewrite Ha, Hh; reflexivity);
    pose proof (inv_step overlay w _ _ HI (step_run overlay w _ He)) as HI1;
    pose proof (hit_count w b au HI) as Hc; rewrite Ha in Hc; specialize (Hc (or_introl eq_refl));
    rewrite Hex in HI1; unfold pops; cbn [repeat run]; rewrite He, Hex; unfold pop_world in *;
    rewrite Hc, Hlen in *; cbn [pred Nat.eqb] in *.
  - eexists. split; [reflexivity|]. split; [exact HI1|].
    unfold endLevel_world, hit_world. world_simpl. repeat split; lia.
  - destruct (IH (hit_world b au w) HI1) as (w' & Hr & HI' & Hh' & Ht & Hl & Hs).
    + unfold area_clickable, hit_world in *. world_simpl. exact Hh.
    + exact Hc.
    + exists w'. split; [exact Hr|]. rewrite Ht, Hl, Hs. unfold hit_world. world_simpl.
      repeat (split; [assumption || reflexivity|]). lia.
Qed.
(** The summary's button starts the next level being played. *)
Lemma continue_playing (overlay : bool) (w : World T) :
  Inv w -> hidden (modal (dom w)) = false ->
  enabled overlay w Continue = true /\ Inv (exec (dispatch Continue) w) /\
  playing_ok (exec (dispatch Continue) w) /\
  hidden (modal (dom (exec (dispatch Continue) w))) = true /\
  level (exec (dispatch Continue) w) = level (continue_world w).
Proof.
  intros HI Hh.
  assert (He : enabled overlay w Continue = true) by (cbn [enabled]; now rewrite Hh).
  pose proof (step_run overlay w Continue He) as Hst.
  split; [exact He|]. split; [exact (inv_step overlay w _ _ HI Hst)|].
  split; [exact (playing_step overlay w _ _ HI (fun H => ltac:(congruence)) Hst)|].
  destruct (continue_world_spec w HI Hh) as (_ & Hh' & _).
  destruct (continue_eq_start w HI Hh) as (c & _ & ->).
  destruct (start_world_texts c (continue_world w)) as (_ & Hm & Hlv & _).
  rewrite Hm, Hlv. split; [exact Hh'|reflexivity].
Qed.

Lemma play_ends (overlay : bool) (k : nat) : forall w : World T,
  Inv w -> playing_ok w -> (rounds w <= k)%nat ->
  exists w', run overlay (play overlay k w) w = Some w' /\
    hidden (modal (dom w')) = false /\ title (modal (dom w')) = title_game_over.
Proof.
  induction k as [|k IH]; intros w HI Hp Hk; unfold rounds in Hk.
  - destruct (hidden (modal (dom w))) eqn:Hh; [lia|].
    destruct (String.eqb_spec (title (modal (dom w))) title_game_over) as [Ht|]; [|lia].
    exists w. auto.
  - cbn [play]. destruct (hidden (modal (dom w))) eqn:Hh.
    + unfold clear_level. destruct (List.length (area (dom w))) as [|n] eqn:Hlen;
        [apply length_zero_iff_nil in Hlen; destruct (Hp Hh Hlen)|].
      destruct (pop_all overlay n w HI (clickable_hidden overlay w Hh) Hlen) as (w1 & Hr & HI1 & Hh1 & Ht1 & Hl1 & _).
      rewrite Hr. destruct (IH w1 HI1) as (w' & Hr' & Hw'); [congruence| |].
      * unfold rounds. rewrite Hh1, Ht1. pose proof (inv_level w HI).
        unfold end_title in *. destruct (Z.ltb_spec (level w) 3) as [Hlt|Hge];
          [|rewrite String.eqb_refl; lia].
        replace (String.eqb title_great_job title_game_over) with false by reflexivity.
        destruct (continue_world_cases w1 HI1 Hh1) as ([Hl _] & _); [exact Ht1|].
        rewrite Hl, Hl1. lia.
      * exists w'. rewrite run_app, Hr. auto.
    + destruct (String.eqb_spec (title (modal (dom w))) title_game_over) as [Ht|Ht].
      * exists w. auto.
      * destruct (continue_playing overlay w HI Hh) as (He & HI2 & Hp2 & Hh2 & Hl2).
        destruct (IH _ HI2 Hp2) as (w' & Hr' & Hw'); [unfold rounds; rewrite Hh2, Hl2; lia|].
        exists w'. cbn [run]. rewrite He. auto.
Qed.
(** Five rounds are enough from any world where [Inv] holds: a level
    being played at level 1 needs five (three levels, two buttons), a
    summary at most four. *)
Lemma rounds_le_5 (w : World T) : Inv w -> (rounds w <= 5)%nat.
Proof.
  intros HI. pose proof (inv_level w HI) as Hl. unfold rounds.
  destruct (hidden (modal (dom w))) eqn:Hh; [lia|].
  destruct (String.eqb_spec (title (modal (dom w))) title_game_over) as [_|Hgo]; [lia|].
  destruct (continue_world_cases w HI Hh) as (Hgj & _ & Htu).
  destruct (summary_by_title w HI Hh) as (_ & _ & Htu3).
  destruct (inv_summary w HI Hh) as [(Ht & _) | [(Ht & _) | (Ht & _)]].
  - destruct (Hgj Ht) as [-> _]. lia.
  - contradiction.
  - destruct (Htu Ht) as [-> _]. rewrite (Htu3 Ht). lia.
Qed.

(** C17: every level being played can be finished: clicking the first
    balloon once per balloon left, each click enabled when it arrives,
    shows the summary [endLevel(false)] writes ("GREAT JOB" below level
    3, "GAME OVER" on it), on the same level, with 10 points per
    balloon. *)
Theorem level_can_be_cleared (overlay : bool) (d : Dom) (w : World T) :
  page_ok d -> reachable overlay d w -> hidden (modal (dom w)) = true ->
  exists w', run overlay (clear_level w) w = Some w' /\
    hidden (modal (dom w')) = false /\ title (modal (dom w')) = end_title false (level w) /\
    level w' = level w /\ score w' = score w + 10 * Z.of_nat (List.length (area (dom w))).
Proof.
  intros Hp Hr Hh. pose proof (inv_reachable overlay d w Hp Hr) as HI.
  pose proof (playing_reachable overlay d w Hp Hr Hh) as Hne. unfold clear_level.
  destruct (List.length (area (dom w))) as [|n] eqn:Hlen;
    [apply length_zero_iff_nil in Hlen; contradiction|].
  destruct (pop_all overlay n w HI (clickable_hidden overlay w Hh) Hlen) as (w' & Hr' & _ & Hw').
  exists w'. auto.
Qed.

(** C18: the game can always be played to its end: from every reachable
    world the strategy [play] (clear each level, press each summary's
    button) is a sequence of enabled events, of at most three levels,
    that ends on the "GAME OVER" summary. *)
Theorem game_over_reachable (overlay : bool) (d : Dom) (w : World T) :
  page_ok d -> reachable overlay d w ->
  exists w', run overlay (play overlay 5 w) w = Some w' /\
    hidden (modal (dom w')) = false /\ title (modal (dom w')) = title_game_over.
Proof.
  intros Hp Hr. pose proof (inv_reachable overlay d w Hp Hr) as HI.
  exact (play_ends overlay 5 w HI (playing_reachable overlay d w Hp Hr) (rounds_le_5 w HI)).
Qed.
(** C34: without the overlay, "TIME'S UP" can be turned into "GAME OVER".
    In every reachable world where a page that does not cover the play
    area shows the "TIME'S UP" summary over balloons left, clicking them
    one by one is a run of enabled events; the last pop runs
    [endLevel(false)], which on level 3 (the only timed level) shows the
    "GAME OVER" summary, with 10 points per balloon popped after the
    time ran out. *)
Theorem time_up_then_game_over (d : Dom) (w : World T) :
  page_ok d -> reachable false d w -> hidden (modal (dom w)) = false ->
  title (modal (dom w)) = title_times_up -> area (dom w) <> [] ->
  exists w', run false (clear_level w) w = Some w' /\
    title (modal (dom w')) = title_game_over /\ level w' = 3%Z /\
    score w' = score w + 10 * Z.of_nat (List.length (area (dom w))).
Proof.
  intros Hp Hr Hh Ht Hne. pose proof (inv_reachable false d w Hp Hr) as HI.
  destruct (summary_by_title w HI Hh) as (_ & _ & H3). specialize (H3 Ht).
  unfold clear_level. destruct (List.length (area (dom w))) as [|n] eqn:Hlen;
    [apply length_zero_iff_nil in Hlen; contradiction|].
  destruct (pop_all false n w HI eq_refl Hlen) as (w' & Hr' & _ & _ & Ht' & Hl' & Hs').
  exists w'. rewrite Ht', Hl', H3. repeat split; [exact Hr' | exact Hs'].
Qed.

(** ** Retrying level 3: the score has no bound *)

(** One retry of level 3: pop one balloon, let the countdown run out,
    press "Try Again?". *)
Definition retry_cycle (w : World T) : list Event :=
  match timer w with
  | Some id => ClickBalloon 0 :: repeat (Fire id) 15 ++ [Continue]
  | None => []
  end.

Fixpoint grind (overlay : bool) (k : nat) (w : World T) : list Event :=
  match k with
  | O => []
  | S k' =>
      match run overlay (retry_cycle w) w with
      | Some w1 => retry_cycle w ++ grind overlay k' w1
      | None => []
      end
  end.

(** [S n] firings of the countdown with [S n] seconds left end the level
    with "TIME'S UP", the rest of the abstract state unchanged. *)
Lemma run_ticks (overlay : bool) (n : nat) : forall (w : World T) id l s k,
  Inv w -> timer w = Some id ->
  alpha w = mkA AwaitingInput l s k (Some (Z.of_nat (S n))) ->
  exists w', run overlay (repeat (Fire id) (S n)) w = Some w' /\ Inv w' /\
    alpha w' = mkA TimeUpSummary l s k None.
Proof.
  induction n as [|n IH]; intros w id l s k HI Ht Ha;
    destruct (alpha_timer w _ (f_equal remaining Ha)) as (id' & Ht' & Hg);
    rewrite Ht in Ht'; injection Ht' as <-;
    assert (He : enabled overlay w (Fire id) = true) by (cbn [enabled]; now rewrite Hg);
    pose proof (inv_step overlay w _ _ HI (step_run overlay w _ He)) as HI1;
    destruct (alpha_tick w id _ HI Hg) as [_ Hal];
    rewrite (exec_fire w id _ HI Hg) in HI1; cbn [repeat run]; rewrite He, (exec_fire w id _ HI Hg).
  - eexists. split; [reflexivity|]. split; [exact HI1|]. rewrite Hal, Ha. reflexivity.
  - apply (IH _ id l s k HI1).
    + unfold countdown_world, tick_world. replace (Z.leb (Z.of_nat (S (S n)) - 1) 0) with false by (symmetry; apply Z.leb_gt; lia).
      world_simpl. exact Ht.
    + rewrite Hal, Ha. unfold after_tick. cbn [cur_level a_score targets].
      replace (Z.leb (Z.of_nat (S (S n)) - 1) 0) with false by (symmetry; apply Z.leb_gt; lia). do 2 f_equal. lia.
Qed.

Lemma retry_cycle_run (overlay : bool) (w : World T) (s : Z) :
  Inv w -> alpha w = mkA AwaitingInput 3 s 20 (Some 15) ->
  exists w', run overlay (retry_cycle w) w = Some w' /\ Inv w' /\
    alpha w' = mkA AwaitingInput 3 (s + 10) 20 (Some 15).
Proof.
  intros HI Ha.
  destruct (alpha_timer w _ (f_equal remaining Ha)) as (id & Ht & _).
  pose proof (alpha_awaiting w (f_equal phase Ha)) as Hh.
  pose proof (f_equal targets Ha) as Hlen. cbn [alpha targets] in Hlen.
  destruct (area (dom w)) as [|b bs] eqn:Har; [discriminate|].
  assert (Hin : In b (area (dom w))) by (rewrite Har; left; reflexivity).
  destruct (exec_click w 0 b HI) as (au & Hsnd & Hex); [now rewrite Har|].
  assert (He : enabled overlay w (ClickBalloon 0) = true)
    by (unfold enabled, area_clickable; rewrite Har, Hh; now destruct overlay).
  pose proof (inv_step overlay w _ _ HI (step_run overlay w _ He)) as HI1. rewrite Hex in HI1.
  pose proof (alpha_pop w b au HI Hh Hin Hsnd) as Hap. rewrite Ha in Hap.
  assert (Ht1 : timer (pop_world b au w) = Some id).
  { unfold pop_world. rewrite (hit_count w b au HI Hin), Har, Hlen. exact Ht. }
  destruct (run_ticks overlay 14 (pop_world b au w) id 3 (s + 10) 19 HI1 Ht1 Hap)
    as (w2 & Hr2 & HI2 & Ha2).
  assert (Hh2 : hidden (modal (dom w2)) = false).
  { destruct (hidden (modal (dom w2))) eqn:E; [|reflexivity].
    pose proof (f_equal phase Ha2) as P. cbn [alpha phase] in P.
    rewrite (phase_of_hidden _ E) in P. discriminate. }
  destruct (continue_playing overlay w2 HI2 Hh2) as (He3 & HI3 & _).
  destruct (continue_eq_start w2 HI2 Hh2) as (c & Hc & Hex3).
  pose proof (alpha_continue w2 c HI2 Hh2 Hc) as Ha3. rewrite <- Hex3, Ha2 in Ha3.
  exists (exec (dispatch Continue) w2). split; [|split; [exact HI3|rewrite Ha3; reflexivity]].
  unfold retry_cycle. rewrite Ht. cbn [run]. rewrite He, Hex, run_app, Hr2. cbn [run].
  now rewrite He3.
Qed.

Lemma grind_run (overlay : bool) (k : nat) : forall (w : World T) (s : Z),
  Inv w -> alpha w = mkA AwaitingInput 3 s 20 (Some 15) ->
  exists w', run overlay (grind overlay k w) w = Some w' /\ Inv w' /\
    score w' = s + 10 * Z.of_nat k.
Proof.
  induction k as [|k IH]; intros w s HI Ha.
  - exists w. split; [reflexivity|]. split; [exact HI|]. apply (f_equal a_score) in Ha.
    cbn in Ha. lia.
  - destruct (retry_cycle_run overlay w s HI Ha) as (w1 & Hr1 & HI1 & Ha1).
    destruct (IH w1 (s + 10) HI1 Ha1) as (w' & Hr' & HI' & Hs').
    exists w'. cbn [grind]. rewrite Hr1, run_app, Hr1. split; [exact Hr'|]. split; [exact HI'|]. lia.
Qed.

End Progress.

(** C21: the score has no bound.  From level 3 reached with 300 points,
    [n] retries (one pop, the countdown running out, "Try Again?") reach
    a world with [300 + 10 * n] points: "Try Again" keeps the points of
    the failed attempt and restarts level 3 with 20 new balloons.  With
    [Session.score_per_event] this is exactly the growth a double must
    hold. *)
Theorem score_unbounded (n : nat) :
  exists w, run true (grind true n demo_level3) demo_level3 = Some w /\
    reachable true demo_page w /\ score w = 300 + 10 * Z.of_nat n.
Proof.
  assert (Hr : reachable true demo_page demo_level3)
    by (apply reachable_run; vm_compute; discriminate).
  pose proof (inv_reachable true demo_page _ demo_page_ok Hr) as HI.
  assert (Ha : alpha demo_level3 = mkA AwaitingInput 3 300 20 (Some 15)) by (vm_compute; reflexivity).
  destruct (grind_run true n demo_level3 300 HI Ha) as (w & Hrun & _ & Hs).
  exists w. split; [exact Hrun|]. split; [exact (run_reachable true demo_page _ _ _ Hr Hrun)|exact Hs].
Qed.

(** ** Witnesses *)

Lemma level_can_be_cleared_witness :
  exists w', run true (clear_level demo_world) demo_world = Some w' /\
    hidden (modal (dom w')) = false /\ title (modal (dom w')) = end_title false (level demo_world) /\
    level w' = level demo_world /\
    score w' = score demo_world + 10 * Z.of_nat (List.length (area (dom demo_world))).
Proof.
  refine (level_can_be_cleared true demo_page demo_world _ _ _).
  - exact demo_page_ok.
  - exact (reach_start _ _).
  - vm_compute. reflexivity.
Defined.

Lemma game_over_reachable_witness :
  exists w', run false (play false 5 demo_world) demo_world = Some w' /\
    hidden (modal (dom w')) = false /\ title (modal (dom w')) = title_game_over.
Proof.
  refine (game_over_reachable false demo_page demo_world _ _).
  - exact demo_page_ok.
  - exact (reach_start _ _).
Defined.

Lemma time_up_then_game_over_witness :
  exists w', run false (clear_level (demo_time_up false)) (demo_time_up false) = Some w' /\
    title (modal (dom w')) = title_game_over /\ level w' = 3%Z /\
    score w' = score (demo_time_up false) +
      10 * Z.of_nat (List.length (area (dom (demo_time_up false)))).
Proof.
  refine (time_up_then_game_over demo_page (demo_time_up false) demo_page_ok _ _ _ _).
  - apply reachable_run. vm_compute. discriminate.
  - vm_compute. reflexivity.
  - vm_compute. reflexivity.
  - vm_compute. discriminate.
Defined.
